(** * FastAPI-contacts: the data-access contract of the contact book

    A shallow embedding of [src/database/models.py], [src/schemas.py],
    [src/repository/contacts.py], [src/repository/users.py] and of the
    not-found mapping of [src/routes/contacts.py].

    The relational store behind the SQLAlchemy [Session] is a pair of
    tables, each a list of rows in insertion order.  Every repository
    function takes the session and returns its result together with the
    session after [db.commit()].  The system clock ([date.today()],
    [func.now()]) and the Gravatar collaborator are explicit arguments.

    The store keeps what models.py declares of it: the primary keys, the
    NOT NULL of [contacts.created_at], the UNIQUE of [users.email] and
    the Integer type of [contacts.phone_number]; a statement that breaks
    a constraint raises [IntegrityError] and leaves the store as it was.
    A result [Raise e] stands for the exception [e] leaving the function
    with nothing committed.  Where database engines differ (negative
    LIMIT and OFFSET, the escape character of LIKE, texts that are no
    numerals in an Integer column) the embedding follows SQLite or takes
    the convention as a parameter, and says so at the definition.  Lost
    connections are not part of the embedding. *)

From Stdlib Require Import ZArith List Bool String Ascii Lia.
Import ListNotations.

Open Scope Z_scope.

(** ** Python values *)

(** The exceptions the modelled code can raise or catch.  All of them are
    subclasses of Python's [Exception]. *)
Inductive PyExc : Type :=
| AttributeError (msg : string)
| HTTPException (status_code : Z) (detail : string)
| IntegrityError (msg : string)
| Exception (msg : string).

Inductive result (A : Type) : Type :=
| Ok (a : A)
| Raise (e : PyExc).
Arguments Ok {A} a.
Arguments Raise {A} e.

(** The value read back from a column of type Integer.  A text that is a
    plain decimal numeral within 64 bits is stored as the integer it
    denotes.  What the engine makes of any other text (kept as text,
    taken for a real number, or refused) is not interpreted: the value
    is named by the text that was given. *)
Inductive column_value : Type :=
| IntegerValue (z : Z)
| OtherValue (text : string).

Definition digit_of (c : ascii) : option Z :=
  let n := Z.of_nat (nat_of_ascii c) in
  if (48 <=? n) && (n <=? 57) then Some (n - 48) else None.

Fixpoint decimal_from (acc : Z) (s : string) : option Z :=
  match s with
  | EmptyString => Some acc
  | String c s' =>
      match digit_of c with
      | Some d => decimal_from (10 * acc + d) s'
      | None => None
      end
  end.

(** The largest signed 64-bit integer. *)
Definition max_int64 : Z := 9223372036854775807.

(** A [str] bound to a column of type Integer. *)
Definition integer_column (s : string) : column_value :=
  match s with
  | EmptyString => OtherValue s
  | String _ _ =>
      match decimal_from 0 s with
      | Some z => if z <=? max_int64 then IntegerValue z else OtherValue s
      | None => OtherValue s
      end
  end.

(** [status.HTTP_404_NOT_FOUND] *)
Definition HTTP_404_NOT_FOUND : Z := 404.

(** The not-found class of errors: what the routes raise on an absent
    contact. *)
Definition is_not_found (e : PyExc) : bool :=
  match e with
  | HTTPException code _ => code =? HTTP_404_NOT_FOUND
  | _ => false
  end.

(** A [datetime] value, as a count of seconds. *)
Definition datetime : Type := Z.

(** ** [datetime.date] and [timedelta] *)
Module date.

Record t : Type := mk { year : Z; month : Z; day : Z }.

Definition is_leap (y : Z) : bool :=
  (y mod 4 =? 0) && (negb (y mod 100 =? 0) || (y mod 400 =? 0)).

Definition days_in_month (y m : Z) : Z :=
  if m =? 2 then (if is_leap y then 29 else 28)
  else if (m =? 4) || (m =? 6) || (m =? 9) || (m =? 11) then 30
  else 31.

(** A date of the proleptic Gregorian calendar.  Python's [MAXYEAR]
    bound is not modelled. *)
Definition valid (d : t) : Prop :=
  1 <= month d <= 12 /\ 1 <= day d <= days_in_month (year d) (month d).

Definition tomorrow (d : t) : t :=
  if day d <? days_in_month (year d) (month d)
  then mk (year d) (month d) (day d + 1)
  else if month d <? 12 then mk (year d) (month d + 1) 1
  else mk (year d + 1) 1 1.

(** [d + timedelta(days=n)] *)
Definition add_days (d : t) (n : nat) : t := Nat.iter n tomorrow d.

End date.

(** ** [src/schemas.py] *)

Module ContactsModel.
Record t : Type := mk {
  first_name : string;
  last_name : string;
  email : string;
  phone_number : string;
  born_date : date.t
}.
End ContactsModel.

Module ContactsStatusUpdate.
Record t : Type := mk { done : bool }.
End ContactsStatusUpdate.

Module UserModel.
Record t : Type := mk {
  username : string;
  email : string;
  password : string
}.
End UserModel.

(** ** [src/database/models.py] *)

(** A row of the [contacts] table.  [born_date] holds the calendar date
    the schema validated; [phone_number] is a column of type Integer;
    [description] and [created_at] hold [None] for SQL NULL. *)
Module Contacts.
Record t : Type := mk {
  id : Z;
  first_name : string;
  last_name : string;
  phone_number : column_value;
  born_date : date.t;
  email : string;
  description : option string;
  created_at : option datetime;
  done : bool;
  user_id : Z
}.

Definition with_done (b : bool) (c : t) : t :=
  mk (id c) (first_name c) (last_name c) (phone_number c) (born_date c)
     (email c) (description c) (created_at c) b (user_id c).
End Contacts.

(** A row of the [users] table. *)
Module User.
Record t : Type := mk {
  id : Z;
  username : string;
  email : string;
  password : string;
  created_at : datetime;
  avatar : option string;
  refresh_token : option string;
  confirmed : bool
}.

Definition with_confirmed (b : bool) (u : t) : t :=
  mk (id u) (username u) (email u) (password u) (created_at u)
     (avatar u) (refresh_token u) b.

Definition with_refresh_token (tok : option string) (u : t) : t :=
  mk (id u) (username u) (email u) (password u) (created_at u)
     (avatar u) tok (confirmed u).

Definition with_avatar (url : option string) (u : t) : t :=
  mk (id u) (username u) (email u) (password u) (created_at u)
     url (refresh_token u) (confirmed u).
End User.

(** ** The store behind [sqlalchemy.orm.Session] *)

Record Session : Type := mkSession {
  contacts : list Contacts.t;
  users : list User.t
}.

(** The integer primary key given to a new row: one more than the largest
    key in the table. *)
Definition next_id (ids : list Z) : Z := 1 + fold_right Z.max 0 ids.

(** Primary keys are unique within a table. *)
Definition pk_unique (db : Session) : Prop :=
  NoDup (map Contacts.id (contacts db)).

(** [UPDATE contacts SET ... WHERE contacts.id = pk]: the flush of the
    attribute assignments [f] made on the object with primary key [pk]. *)
Definition update_contacts_row (pk : Z) (f : Contacts.t -> Contacts.t)
  (db : Session) : Session :=
  mkSession
    (map (fun r => if Contacts.id r =? pk then f r else r) (contacts db))
    (users db).

(** [DELETE FROM contacts WHERE contacts.id = pk] *)
Definition delete_contacts_row (pk : Z) (db : Session) : Session :=
  mkSession
    (filter (fun r => negb (Contacts.id r =? pk)) (contacts db))
    (users db).

(** [UPDATE users SET ... WHERE users.id = pk] *)
Definition update_users_row (pk : Z) (f : User.t -> User.t)
  (db : Session) : Session :=
  mkSession
    (contacts db)
    (map (fun r => if User.id r =? pk then f r else r) (users db)).

(** [INSERT INTO contacts]: models.py declares [created_at] with
    nullable=False and without default, so a row that brings no value
    for it is refused.  (The other columns declared nullable=False
    always hold a value in [Contacts.t].) *)
Definition insert_contacts_row (row : Contacts.t) (db : Session)
  : result Session :=
  match Contacts.created_at row with
  | None =>
      Raise (IntegrityError
               "NOT NULL constraint failed: contacts.created_at")
  | Some _ => Ok (mkSession (contacts db ++ [row]) (users db))
  end.

(** [INSERT INTO users]: models.py declares [email] with unique=True, so
    a row whose email a stored user has is refused. *)
Definition insert_users_row (row : User.t) (db : Session) : result Session :=
  if existsb (fun u => String.eqb (User.email u) (User.email row)) (users db)
  then Raise (IntegrityError "UNIQUE constraint failed: users.email")
  else Ok (mkSession (contacts db) (users db ++ [row])).

(** The store a call leaves behind: the committed one, or the store of
    before the call when the call raised. *)
Definition session_after {A : Type} (db : Session)
  (r : result (A * Session)) : Session :=
  match r with
  | Ok (_, db') => db'
  | Raise _ => db
  end.

(** [.offset(n)] of a query.  A negative offset is read as 0, as SQLite
    does (PostgreSQL refuses it). *)
Definition sql_offset {A : Type} (n : Z) (rows : list A) : list A :=
  skipn (Z.to_nat n) rows.

(** [.limit(n)] of a query.  A negative limit is read as no limit, as
    SQLite does (PostgreSQL refuses it). *)
Definition sql_limit {A : Type} (n : Z) (rows : list A) : list A :=
  if n <? 0 then rows else firstn (Z.to_nat n) rows.

(** ** SQL pattern matching: [LIKE] and [ILIKE] *)
Module sql.

Definition percent : ascii := "%"%char.
Definition underscore : ascii := "_"%char.
Definition backslash : ascii := "\"%char.

(** Case folding of the letters [A] to [Z]; other characters are kept. *)
Definition lower_ascii (c : ascii) : ascii :=
  let n := nat_of_ascii c in
  if ((65 <=? n) && (n <=? 90))%nat then ascii_of_nat (n + 32) else c.

Fixpoint lower (s : string) : string :=
  match s with
  | EmptyString => EmptyString
  | String c s' => String (lower_ascii c) (lower s')
  end.

(** The elements of a pattern: [%] stands for any run of characters,
    [_] for any one character, everything else for itself. *)
Inductive token : Type :=
| Any
| One
| Lit (c : ascii).

Section Like.

(** Whether the database reads a backslash in a pattern as the escape
    character (PostgreSQL and MySQL do by default, SQLite does not).
    The engine is configured outside the modelled sources. *)
Variable backslash_escapes : bool.

(** A character that is not read literally in a pattern. *)
Definition is_meta (c : ascii) : bool :=
  Ascii.eqb c percent || Ascii.eqb c underscore
  || (backslash_escapes && Ascii.eqb c backslash).

Fixpoint no_meta (s : string) : bool :=
  match s with
  | EmptyString => true
  | String c s' => negb (is_meta c) && no_meta s'
  end.

(** An escape character that ends the pattern stands for itself; the
    patterns built by [search_contacts] end in [%] and never reach
    that case. *)
Fixpoint tokens (p : string) : list token :=
  match p with
  | EmptyString => []
  | String c rest =>
      if backslash_escapes && Ascii.eqb c backslash then
        match rest with
        | EmptyString => [Lit c]
        | String d rest' => Lit d :: tokens rest'
        end
      else if Ascii.eqb c percent then Any :: tokens rest
      else if Ascii.eqb c underscore then One :: tokens rest
      else Lit c :: tokens rest
  end.

Fixpoint matches (p : list token) (s : string) {struct p} : bool :=
  match p with
  | [] => match s with EmptyString => true | String _ _ => false end
  | Any :: p' =>
      (fix skip (s : string) : bool :=
         matches p' s
         || match s with
            | EmptyString => false
            | String _ s' => skip s'
            end) s
  | One :: p' =>
      match s with
      | EmptyString => false
      | String _ s' => matches p' s'
      end
  | Lit c :: p' =>
      match s with
      | EmptyString => false
      | String d s' => Ascii.eqb c d && matches p' s'
      end
  end.

(** [value LIKE pattern] *)
Definition like (value pattern : string) : bool :=
  matches (tokens pattern) value.

(** [value ILIKE pattern], that is [lower(value) LIKE lower(pattern)] *)
Definition ilike (value pattern : string) : bool :=
  like (lower value) (lower pattern).

End Like.

End sql.

(** Substring containment, in the words of the specification. *)
Definition contains (s q : string) : Prop :=
  exists pre post : string, s = (pre ++ q ++ post)%string.

(** Containment up to the case of letters. *)
Definition icontains (s q : string) : Prop :=
  contains (sql.lower s) (sql.lower q).

(** ** [src/repository/contacts.py] *)
Module repository_contacts.

(** [Contacts.user_id == user.id] *)
Definition owned_by (user : User.t) (c : Contacts.t) : bool :=
  Contacts.user_id c =? User.id user.

(** [and_(Contacts.id == contact_id, Contacts.user_id == user.id)] *)
Definition id_and_owner (contact_id : Z) (user : User.t) (c : Contacts.t)
  : bool :=
  (Contacts.id c =? contact_id) && (Contacts.user_id c =? User.id user).

Definition get_contacts (skip limit : Z) (user : User.t) (db : Session)
  : list Contacts.t :=
  sql_limit limit (sql_offset skip (filter (owned_by user) (contacts db))).

Definition get_contact (contact_id : Z) (user : User.t) (db : Session)
  : option Contacts.t :=
  find (id_and_owner contact_id user) (contacts db).

(** The row that the INSERT of [db.add] and [db.commit] is given for the
    [Contacts] object built from [body.dict()] and [user_id=user.id]: the
    five fields of the body and the owner are given, the phone number as
    a [str] bound to the Integer column; the key is assigned by the
    table; [done] takes the column default [False]; [description] and
    [created_at] are given no value and the columns declare no
    default. *)
Definition new_contact (body : ContactsModel.t) (user : User.t)
  (db : Session) : Contacts.t :=
  Contacts.mk
    (next_id (map Contacts.id (contacts db)))
    (ContactsModel.first_name body)
    (ContactsModel.last_name body)
    (integer_column (ContactsModel.phone_number body))
    (ContactsModel.born_date body)
    (ContactsModel.email body)
    None
    None
    false
    (User.id user).

(** [db.add(contact)], [db.commit()], [db.refresh(contact)]: when the
    INSERT is refused, [db.commit()] raises and nothing is returned. *)
Definition create_contact (body : ContactsModel.t) (user : User.t)
  (db : Session) : result (Contacts.t * Session) :=
  let contact := new_contact body user db in
  match insert_contacts_row contact db with
  | Ok db' => Ok (contact, db')
  | Raise e => Raise e
  end.

(** The assignments of [update_contact] to the object found, as read back
    after [db.commit()]: the phone number is a [str] bound to the Integer
    column. *)
Definition assign_body (body : ContactsModel.t) (c : Contacts.t)
  : Contacts.t :=
  Contacts.mk
    (Contacts.id c)
    (ContactsModel.first_name body)
    (ContactsModel.last_name body)
    (integer_column (ContactsModel.phone_number body))
    (ContactsModel.born_date body)
    (ContactsModel.email body)
    (Contacts.description c)
    (Contacts.created_at c)
    (Contacts.done c)
    (Contacts.user_id c).

Definition update_contact (contact_id : Z) (body : ContactsModel.t)
  (user : User.t) (db : Session) : option Contacts.t * Session :=
  match find (id_and_owner contact_id user) (contacts db) with
  | Some contact =>
      (Some (assign_body body contact),
       update_contacts_row (Contacts.id contact) (assign_body body) db)
  | None => (None, db)
  end.

Definition remove_contact (contact_id : Z) (user : User.t) (db : Session)
  : option Contacts.t * Session :=
  match find (id_and_owner contact_id user) (contacts db) with
  | Some contact =>
      (Some contact, delete_contacts_row (Contacts.id contact) db)
  | None => (None, db)
  end.

Definition update_status_contact (contact_id : Z)
  (body : ContactsStatusUpdate.t) (user : User.t) (db : Session)
  : option Contacts.t * Session :=
  let done := ContactsStatusUpdate.done body in
  match find (id_and_owner contact_id user) (contacts db) with
  | Some contact =>
      (Some (Contacts.with_done done contact),
       update_contacts_row (Contacts.id contact) (Contacts.with_done done)
         db)
  | None => (None, db)
  end.

(** The pattern [f"%{query}%"]. *)
Definition pattern_of (query : string) : string :=
  String sql.percent (query ++ String sql.percent EmptyString)%string.

(** The [or_] of the three [ilike] tests. *)
Definition matches_query (esc : bool) (query : string) (c : Contacts.t)
  : bool :=
  sql.ilike esc (Contacts.first_name c) (pattern_of query)
  || sql.ilike esc (Contacts.last_name c) (pattern_of query)
  || sql.ilike esc (Contacts.email c) (pattern_of query).

(** [query] is [None] or a string; [not query] holds for [None] and for
    the empty string.  [esc] is the escape convention of the database
    (see [sql.like]). *)
Definition search_contacts (esc : bool) (db : Session)
  (query : option string) (user : User.t) : list Contacts.t :=
  match query with
  | None => []
  | Some EmptyString => []
  | Some q =>
      filter (matches_query esc q) (filter (owned_by user) (contacts db))
  end.

(** [today] is the value of [date.today()]. *)
Definition get_contacts_with_birthdays (today : date.t) (db : Session)
  (user : User.t) : list Contacts.t :=
  let next_week := date.add_days today 7 in
  filter
    (fun c =>
       (date.month (Contacts.born_date c) =? date.month today)
       && (date.day (Contacts.born_date c) >=? date.day today)
       && (date.day (Contacts.born_date c) <=? date.day next_week))
    (filter (owned_by user) (contacts db)).

End repository_contacts.

(** ** [src/repository/users.py] *)
Module repository_users.

Definition get_user_by_email (email : string) (db : Session)
  : option User.t :=
  find (fun u => String.eqb (User.email u) email) (users db).

(** The [User] object built from [body.dict()] and [avatar=avatar], as
    stored by the INSERT:
    [created_at] takes the column default [func.now()], [confirmed] the
    default [False], [refresh_token] no value. *)
Definition new_user (now : datetime) (body : UserModel.t)
  (avatar : option string) (db : Session) : User.t :=
  User.mk
    (next_id (map User.id (users db)))
    (UserModel.username body)
    (UserModel.email body)
    (UserModel.password body)
    now
    avatar
    None
    false.

(** [get_image] is the collaborator [Gravatar(email).get_image()]: it
    returns a URL or raises.  The second component of the result is what
    [print(e)] wrote.  [db.commit()] stands after the [try] block: when
    the INSERT is refused, its error leaves [create_user]. *)
Definition create_user (get_image : string -> result string)
  (now : datetime) (body : UserModel.t) (db : Session)
  : result (User.t * Session) * list PyExc :=
  let '(avatar, printed) :=
    match get_image (UserModel.email body) with
    | Ok url => (Some url, [])
    | Raise e => (None, [e])
    end in
  let new_user := new_user now body avatar db in
  (match insert_users_row new_user db with
   | Ok db' => Ok (new_user, db')
   | Raise e => Raise e
   end,
   printed).

Definition update_token (user : User.t) (token : option string)
  (db : Session) : Session :=
  update_users_row (User.id user) (User.with_refresh_token token) db.

(** [user.confirmed = True] on the result of the lookup: when the lookup
    gave [None], the assignment raises [AttributeError] and nothing is
    committed. *)
Definition confirmed_email (email : string) (db : Session)
  : result Session :=
  match get_user_by_email email db with
  | Some user =>
      Ok (update_users_row (User.id user) (User.with_confirmed true) db)
  | None =>
      Raise (AttributeError
               "'NoneType' object has no attribute 'confirmed'")
  end.

Definition update_avatar (email : string) (url : string) (db : Session)
  : result (User.t * Session) :=
  match get_user_by_email email db with
  | Some user =>
      Ok (User.with_avatar (Some url) user,
          update_users_row (User.id user) (User.with_avatar (Some url)) db)
  | None =>
      Raise (AttributeError "'NoneType' object has no attribute 'avatar'")
  end.

End repository_users.

(** ** [src/routes/contacts.py]: absence becomes a 404 *)
Module routes_contacts.

Definition or_404 {A : Type} (detail : string) (r : option A) : result A :=
  match r with
  | Some a => Ok a
  | None => Raise (HTTPException HTTP_404_NOT_FOUND detail)
  end.

Definition read_contact (contacts_id : Z) (db : Session)
  (current_user : User.t) : result Contacts.t :=
  or_404 "contact not found"
    (repository_contacts.get_contact contacts_id current_user db).

Definition remove_contact (contact_id : Z) (db : Session)
  (current_user : User.t) : result Contacts.t * Session :=
  let '(contact, db') :=
    repository_contacts.remove_contact contact_id current_user db in
  (or_404 "contact not found" contact, db').

(** [skip] and [limit] are query parameters with the defaults 0 and 100. *)
Definition read_contacts (skip limit : option Z) (db : Session)
  (current_user : User.t) : list Contacts.t :=
  repository_contacts.get_contacts
    (match skip with Some n => n | None => 0 end)
    (match limit with Some n => n | None => 100 end)
    current_user db.

Definition create_contact (body : ContactsModel.t) (db : Session)
  (current_user : User.t) : result (Contacts.t * Session) :=
  repository_contacts.create_contact body current_user db.

Definition update_contact (body : ContactsModel.t) (contact_id : Z)
  (db : Session) (current_user : User.t) : result Contacts.t * Session :=
  let '(contact, db') :=
    repository_contacts.update_contact contact_id body current_user db in
  (or_404 "contact not found" contact, db').

Definition update_status_note (body : ContactsStatusUpdate.t)
  (contact_id : Z) (db : Session) (current_user : User.t)
  : result Contacts.t * Session :=
  let '(contact, db') :=
    repository_contacts.update_status_contact contact_id body current_user
      db in
  (or_404 "Note not found" contact, db').

End routes_contacts.

(** ** [src/services/email.py] *)
Module services_email.

(** What a step of [send_email] can raise: the [ConnectionErrors] of
    [fastapi_mail.errors], or any other exception. *)
Inductive raised : Type :=
| ConnectionErrors (msg : string)
| OtherError (e : PyExc).

Inductive outcome (A : Type) : Type :=
| Returns (a : A)
| Raises (e : raised).
Arguments Returns {A} a.
Arguments Raises {A} e.

(** A validated message; [template_body] is the dictionary with the keys
    host, username and token. *)
Record MessageSchema : Type := mkMessage {
  subject : string;
  recipients : list string;
  template_body : list (string * string);
  subtype : string
}.

(** [except ConnectionErrors as err: print(err)] *)
Definition swallow_connection_errors (e : raised) : outcome (list raised) :=
  match e with
  | ConnectionErrors msg => Returns [ConnectionErrors msg]
  | OtherError e' => Raises (OtherError e')
  end.

(** The three steps of the [try] block are collaborators, each of which
    returns or raises: [create_email_token] is
    [auth_servise.create_email_token], applied to the dictionary with
    the one key sub; [message_schema] is the constructor [MessageSchema]
    with its subject, recipients, template_body and subtype, which
    validates them (the recipients must be addresses); [send_message] is
    [FastMail(conf).send_message] with the message and the template
    name.  The result is what [print] wrote. *)
Definition send_email
  (create_email_token : list (string * string) -> outcome string)
  (message_schema :
     string -> list string -> list (string * string) -> string ->
     outcome MessageSchema)
  (send_message : MessageSchema -> string -> outcome unit)
  (email username host : string) : outcome (list raised) :=
  match create_email_token [("sub"%string, email)] with
  | Returns token_verification =>
      match
        message_schema "Confirm your email "%string [email]
          [("host"%string, host); ("username"%string, username);
           ("token"%string, token_verification)]
          "html"%string
      with
      | Returns message =>
          match send_message message "email_template.html"%string with
          | Returns _ => Returns []
          | Raises e => swallow_connection_errors e
          end
      | Raises e => swallow_connection_errors e
      end
  | Raises e => swallow_connection_errors e
  end.

End services_email.

(** ** The specification's words *)

(** The outcome of [create] as the specification words it: a record is
    persisted and returned. *)
Definition persists_a_record {A : Type} (r : result (A * Session)) : Prop :=
  exists (a : A) (db' : Session), r = Ok (a, db').

(** The birthday filter as the specification words it: the owner's
    contacts born in the month of [today] on a day from today's day to
    today's day plus 7. *)
Definition upcoming_as_specified (today : date.t) (user : User.t)
  (c : Contacts.t) : bool :=
  (Contacts.user_id c =? User.id user)
  && (date.month (Contacts.born_date c) =? date.month today)
  && (date.day today <=? date.day (Contacts.born_date c))
  && (date.day (Contacts.born_date c) <=? date.day today + 7).

(** The failure of [confirm_email] as the specification words it: an
    error of the not-found class is raised. *)
Definition raises_not_found {A : Type} (r : result A) : Prop :=
  exists e : PyExc, r = Raise e /\ is_not_found e = true.

(** The search criterion as the specification words it: a contact of the
    owner whose first name, last name or email contains the query, up to
    the case of letters. *)
Definition found_as_specified (query : string) (user : User.t)
  (c : Contacts.t) : Prop :=
  Contacts.user_id c = User.id user
  /\ (icontains (Contacts.first_name c) query
      \/ icontains (Contacts.last_name c) query
      \/ icontains (Contacts.email c) query).

(** Whether the character [a] occurs in [s]. *)
Fixpoint occurs (a : ascii) (s : string) : bool :=
  match s with
  | EmptyString => false
  | String b s' => Ascii.eqb a b || occurs a s'
  end.

(** ** Sample data *)
Module sample.

Definition alice : User.t :=
  User.mk 1 "alice" "alice@example.com" "secret1" 1700000000
    None None false.

Definition bruno : User.t :=
  User.mk 2 "bruno" "bruno@example.com" "secret2" 1700000100
    None None false.

Definition bob_body : ContactsModel.t :=
  ContactsModel.mk "Bob" "Smith" "bob@example.com" "380501112233"
    (date.mk 1990 1 30).

Definition ann_body : ContactsModel.t :=
  ContactsModel.mk "Ann" "Lee" "ann@example.com" "380504445566"
    (date.mk 1991 1 12).

(** Bob, a contact of alice, and Ann, a contact of bruno. *)
Definition bob : Contacts.t :=
  Contacts.mk 1 "Bob" "Smith" (IntegerValue 380501112233)
    (date.mk 1990 1 30) "bob@example.com" None (Some 1700000500) false 1.

Definition ann : Contacts.t :=
  Contacts.mk 2 "Ann" "Lee" (IntegerValue 380504445566)
    (date.mk 1991 1 12) "ann@example.com" None (Some 1700000600) false 2.

Definition empty_db : Session := mkSession [] [].

Definition db : Session := mkSession [bob; ann] [alice; bruno].

Definition mark_done : ContactsStatusUpdate.t :=
  ContactsStatusUpdate.mk true.

(** A second registration under the email of alice. *)
Definition alice_again : UserModel.t :=
  UserModel.mk "alice2" "alice@example.com" "secret9".

(** A first registration. *)
Definition carla_body : UserModel.t :=
  UserModel.mk "carla" "carla@example.com" "secret3".

(** An avatar collaborator that answers, and one that fails. *)
Definition gravatar_up (email : string) : result string :=
  Ok "https://www.gravatar.com/avatar/0"%string.

Definition gravatar_down (email : string) : result string :=
  Raise (Exception "no network").

End sample.

(** ** Notions used by the further properties *)

(** Every query of the contacts repository gives the user [v] the same
    answer on [db'] as on [db]. *)
Definition same_answers (v : User.t) (db db' : Session) : Prop :=
  (forall skip limit,
      repository_contacts.get_contacts skip limit v db'
      = repository_contacts.get_contacts skip limit v db)
  /\ (forall cid,
        repository_contacts.get_contact cid v db'
        = repository_contacts.get_contact cid v db)
  /\ (forall esc query,
        repository_contacts.search_contacts esc db' query v
        = repository_contacts.search_contacts esc db query v)
  /\ (forall today,
        repository_contacts.get_contacts_with_birthdays today db' v
        = repository_contacts.get_contacts_with_birthdays today db v).

(** The keys of the users whose email is confirmed. *)
Definition confirmed_ids (db : Session) : list Z :=
  map User.id (filter User.confirmed (users db)).

(** A query made of [%] characters only. *)
Fixpoint only_percent (q : string) : bool :=
  match q with
  | EmptyString => true
  | String c q' => Ascii.eqb c sql.percent && only_percent q'
  end.

(** No stored contact has the key [cid]. *)
Definition unused_key (cid : Z) (db : Session) : Prop :=
  ~ In cid (map Contacts.id (contacts db)).

(** The birthday of [c] falls on the day [d] of the calendar. *)
Definition birthday_on (c : Contacts.t) (d : date.t) : Prop :=
  date.month (Contacts.born_date c) = date.month d
  /\ date.day (Contacts.born_date c) = date.day d.

(** * Properties *)

(** ** The store *)

Lemma next_id_above (ids : list Z) (x : Z) : In x ids -> x < next_id ids.
Proof.
  unfold next_id. induction ids as [|y ids IH]; cbn [fold_right In].
  - intros [].
  - intros [-> | Hin]; [lia | specialize (IH Hin); lia].
Qed.

Lemma next_id_fresh (ids : list Z) : ~ In (next_id ids) ids.
Proof.
  intros Hin. apply next_id_above in Hin. lia.
Qed.

(** Rows that share their key are the same row. *)
Lemma pk_unique_inj (l : list Contacts.t) (a b : Contacts.t) :
  NoDup (map Contacts.id l) -> In a l -> In b l ->
  Contacts.id a = Contacts.id b -> a = b.
Proof.
  induction l as [|r l IH]; simpl; [intros _ [] | ].
  intros Hnd Ha Hb Hid. inversion Hnd as [|? ? Hnotin Hnd']; subst.
  destruct Ha as [-> | Ha], Hb as [-> | Hb]; auto.
  - exfalso. apply Hnotin. rewrite Hid. now apply in_map.
  - exfalso. apply Hnotin. rewrite <- Hid. now apply in_map.
Qed.

Lemma find_map_stable {A : Type} (p : A -> bool) (g : A -> A) (l : list A) :
  (forall x, p (g x) = p x) ->
  find p (map g l) = option_map g (find p l).
Proof.
  intros Hp. induction l as [|x l IH]; simpl; [reflexivity | ].
  rewrite Hp. destruct (p x); [reflexivity | exact IH].
Qed.

Lemma find_app_miss {A : Type} (p : A -> bool) (l : list A) (x : A) :
  find p l = None -> find p (l ++ [x]) = if p x then Some x else None.
Proof.
  induction l as [|y l IH]; simpl; [reflexivity | ].
  destruct (p y); [intros H; discriminate H | exact IH].
Qed.

Lemma map_ext_in_id {A : Type} (g : A -> A) (l : list A) :
  (forall x, In x l -> g x = x) -> map g l = l.
Proof.
  intros H. rewrite <- (map_id l) at 2. now apply map_ext_in.
Qed.

Lemma filter_all {A : Type} (p : A -> bool) (l : list A) :
  (forall x, In x l -> p x = true) -> filter p l = l.
Proof.
  induction l as [|x l IH]; simpl; intros H; [reflexivity | ].
  rewrite (H x) by now left. f_equal. apply IH. intros y Hy. apply H. now right.
Qed.

(** In a table with unique keys, the UPDATE and the DELETE on a key touch
    one row and keep the rows before and after it. *)
Lemma pk_unique_split (l1 l2 : list Contacts.t) (c r : Contacts.t) :
  NoDup (map Contacts.id (l1 ++ c :: l2)) ->
  In r (l1 ++ l2) -> (Contacts.id r =? Contacts.id c) = false.
Proof.
  intros Hnd Hin. rewrite map_app in Hnd. simpl in Hnd.
  apply NoDup_remove_2 in Hnd. apply Z.eqb_neq. intros Heq. apply Hnd.
  rewrite <- Heq, <- map_app. now apply in_map.
Qed.

Lemma update_row_split (f : Contacts.t -> Contacts.t)
  (l1 l2 : list Contacts.t) (c : Contacts.t) :
  NoDup (map Contacts.id (l1 ++ c :: l2)) ->
  map (fun r => if Contacts.id r =? Contacts.id c then f r else r)
      (l1 ++ c :: l2)
  = l1 ++ f c :: l2.
Proof.
  intros Hnd. rewrite map_app. simpl. rewrite Z.eqb_refl.
  rewrite !map_ext_in_id; [reflexivity | | ];
    intros r Hr; rewrite (pk_unique_split l1 l2 c r Hnd); auto;
    apply in_or_app; auto.
Qed.

Lemma delete_row_split (l1 l2 : list Contacts.t) (c : Contacts.t) :
  NoDup (map Contacts.id (l1 ++ c :: l2)) ->
  filter (fun r => negb (Contacts.id r =? Contacts.id c)) (l1 ++ c :: l2)
  = l1 ++ l2.
Proof.
  intros Hnd. rewrite filter_app. simpl. rewrite Z.eqb_refl. simpl.
  rewrite !filter_all; [reflexivity | | ];
    intros r Hr; rewrite (pk_unique_split l1 l2 c r Hnd); auto;
    apply in_or_app; auto.
Qed.

(** *** Key uniqueness is an invariant of the contacts table *)

Lemma pk_unique_empty (us : list User.t) : pk_unique (mkSession [] us).
Proof. constructor. Qed.

Lemma NoDup_snoc {A : Type} (l : list A) (x : A) :
  NoDup l -> ~ In x l -> NoDup (l ++ [x]).
Proof.
  induction l as [|y l IH]; simpl; intros Hnd Hx.
  - repeat constructor. intros [].
  - inversion Hnd as [|? ? Hy Hnd']; subst. constructor.
    + intros Hin. apply in_app_or in Hin. destruct Hin as [Hin | [-> | []]].
      * contradiction.
      * apply Hx. now left.
    + apply IH; [exact Hnd' | ]. intros Hin. apply Hx. now right.
Qed.

(** An accepted INSERT under a key of [next_id] keeps the keys unique. *)
Lemma pk_unique_insert (row : Contacts.t) (db db' : Session) :
  Contacts.id row = next_id (map Contacts.id (contacts db)) ->
  insert_contacts_row row db = Ok db' ->
  pk_unique db -> pk_unique db'.
Proof.
  unfold insert_contacts_row, pk_unique. intros Hkey Hins Hnd.
  destruct (Contacts.created_at row); [ | discriminate Hins].
  injection Hins as <-. cbn [contacts]. rewrite map_app. simpl.
  apply NoDup_snoc; [exact Hnd | ]. rewrite Hkey. apply next_id_fresh.
Qed.

Lemma pk_unique_create (body : ContactsModel.t) (user : User.t)
  (db : Session) :
  pk_unique db ->
  pk_unique
    (session_after db (repository_contacts.create_contact body user db)).
Proof.
  intros Hpk. unfold repository_contacts.create_contact. cbn zeta.
  destruct (insert_contacts_row _ db) as [db' | e] eqn:Hins;
    cbn [session_after]; [ | exact Hpk].
  apply (pk_unique_insert (repository_contacts.new_contact body user db)
           db db'); [reflexivity | exact Hins | exact Hpk].
Qed.

Lemma pk_unique_update_row (pk : Z) (f : Contacts.t -> Contacts.t)
  (db : Session) :
  (forall r, Contacts.id (f r) = Contacts.id r) ->
  pk_unique db -> pk_unique (update_contacts_row pk f db).
Proof.
  unfold pk_unique, update_contacts_row. cbn [contacts]. intros Hid Hnd.
  rewrite map_map.
  erewrite map_ext; [exact Hnd | ].
  intros r. simpl. destruct (Contacts.id r =? pk); [apply Hid | reflexivity].
Qed.

Lemma pk_unique_delete_row (pk : Z) (db : Session) :
  pk_unique db -> pk_unique (delete_contacts_row pk db).
Proof.
  unfold pk_unique, delete_contacts_row. cbn [contacts].
  induction (contacts db) as [|r l IH]; simpl; intros Hnd; [exact Hnd | ].
  inversion Hnd as [|? ? Hr Hnd']; subst.
  destruct (negb (Contacts.id r =? pk)); simpl; [ | now apply IH].
  constructor; [ | now apply IH].
  intros Hin. apply Hr. apply in_map_iff in Hin.
  destruct Hin as (x & Hx & Hin). apply filter_In in Hin.
  apply in_map_iff. exists x. tauto.
Qed.

Lemma pk_unique_update (cid : Z) (body : ContactsModel.t) (user : User.t)
  (db : Session) :
  pk_unique db ->
  pk_unique (snd (repository_contacts.update_contact cid body user db)).
Proof.
  intros H. unfold repository_contacts.update_contact.
  destruct (find _ _); simpl; [ | exact H].
  now apply pk_unique_update_row.
Qed.

Lemma pk_unique_update_status (cid : Z) (st : ContactsStatusUpdate.t)
  (user : User.t) (db : Session) :
  pk_unique db ->
  pk_unique (snd (repository_contacts.update_status_contact cid st user db)).
Proof.
  intros H. unfold repository_contacts.update_status_contact.
  destruct (find _ _); simpl; [ | exact H].
  now apply pk_unique_update_row.
Qed.

Lemma pk_unique_remove (cid : Z) (user : User.t) (db : Session) :
  pk_unique db ->
  pk_unique (snd (repository_contacts.remove_contact cid user db)).
Proof.
  intros H. unfold repository_contacts.remove_contact.
  destruct (find _ _); simpl; [ | exact H].
  now apply pk_unique_delete_row.
Qed.

Module contacts_facts.
Import repository_contacts.

Lemma find_id_and_owner (cid : Z) (u : User.t) (l : list Contacts.t)
  (k : Contacts.t) :
  find (id_and_owner cid u) l = Some k ->
  In k l /\ Contacts.id k = cid /\ Contacts.user_id k = User.id u.
Proof.
  intros H. apply find_some in H. destruct H as [Hin Hp].
  unfold id_and_owner in Hp. apply andb_true_iff in Hp.
  destruct Hp as [H1 H2]. apply Z.eqb_eq in H1, H2. auto.
Qed.

(** The scoped lookup misses every row of another owner. *)
Lemma foreign_lookup_misses (B : User.t) (c : Contacts.t) (db : Session) :
  pk_unique db -> In c (contacts db) ->
  Contacts.user_id c <> User.id B ->
  find (id_and_owner (Contacts.id c) B) (contacts db) = None.
Proof.
  intros Hpk Hin Hown.
  destruct (find _ _) as [k|] eqn:Hf; [exfalso | reflexivity].
  apply find_id_and_owner in Hf. destruct Hf as (Hk & Hid & Hu).
  assert (k = c) by (eapply pk_unique_inj; eauto). subst k. auto.
Qed.

(** A key found for one owner is not the key of another owner's row. *)
Lemma other_key (B : User.t) (c k : Contacts.t) (cid : Z) (db : Session) :
  pk_unique db -> In c (contacts db) ->
  Contacts.user_id c <> User.id B ->
  find (id_and_owner cid B) (contacts db) = Some k ->
  (Contacts.id c =? Contacts.id k) = false.
Proof.
  intros Hpk Hin Hown Hf. apply find_id_and_owner in Hf.
  destruct Hf as (Hk & _ & Hu). apply Z.eqb_neq. intros Heq.
  assert (c = k) by (eapply pk_unique_inj; eauto). subst k. auto.
Qed.

Lemma owned_filter_In (u : User.t) (c : Contacts.t) (l : list Contacts.t) :
  In c (filter (owned_by u) l) -> Contacts.user_id c = User.id u.
Proof.
  intros H. apply filter_In in H. destruct H as [_ H].
  now apply Z.eqb_eq in H.
Qed.

Lemma In_firstn {A : Type} (n : nat) (l : list A) (x : A) :
  In x (firstn n l) -> In x l.
Proof.
  intros H. rewrite <- (firstn_skipn n l). apply in_or_app. now left.
Qed.

Lemma In_skipn {A : Type} (n : nat) (l : list A) (x : A) :
  In x (skipn n l) -> In x l.
Proof.
  intros H. rewrite <- (firstn_skipn n l). apply in_or_app. now right.
Qed.

(** A page holds rows of the query only, whatever the limit and the
    offset, negative ones included. *)
Lemma In_page {A : Type} (skip limit : Z) (l : list A) (x : A) :
  In x (sql_limit limit (sql_offset skip l)) -> In x l.
Proof.
  unfold sql_limit, sql_offset. intros H.
  destruct (limit <? 0); [ | apply In_firstn in H]; now apply In_skipn in H.
Qed.

Lemma get_contacts_owned (skip limit : Z) (u : User.t) (db : Session)
  (c : Contacts.t) :
  In c (get_contacts skip limit u db) -> Contacts.user_id c = User.id u.
Proof.
  unfold get_contacts. intros H. apply In_page in H.
  now apply owned_filter_In in H.
Qed.

Lemma search_contacts_owned (esc : bool) (db : Session)
  (query : option string) (u : User.t) (c : Contacts.t) :
  In c (search_contacts esc db query u) ->
  In c (contacts db) /\ Contacts.user_id c = User.id u.
Proof.
  unfold search_contacts. destruct query as [[|a q]|]; simpl; try tauto.
  intros H. apply filter_In in H. destruct H as [H _]. split.
  - apply filter_In in H. tauto.
  - now apply owned_filter_In in H.
Qed.

Lemma birthdays_owned (today : date.t) (db : Session) (u : User.t)
  (c : Contacts.t) :
  In c (get_contacts_with_birthdays today db u) ->
  Contacts.user_id c = User.id u.
Proof.
  unfold get_contacts_with_birthdays. intros H.
  apply filter_In in H. destruct H as [H _]. now apply owned_filter_In in H.
Qed.

End contacts_facts.

(** ** Ownership-scoped access to contacts *)

Import repository_contacts.

(** C1. Ownership isolation: for a contact [c] of owner [A] stored in a
    table with unique keys, and a caller [B] with another id, the lookups
    [get_contact], [update_contact], [update_status_contact] and
    [remove_contact] of [B] on [c]'s id return absent and leave the whole
    store, hence [c], unchanged; moreover no query of [B] (lookup by any
    id, listing, search, birthdays) returns [c], and [c] is still stored
    unchanged after any update, status update or removal that [B] makes
    with any id. *)
Theorem ownership_isolation (A B : User.t) (c : Contacts.t) (db : Session)
  (body : ContactsModel.t) (st : ContactsStatusUpdate.t) :
  pk_unique db ->
  In c (contacts db) ->
  Contacts.user_id c = User.id A ->
  User.id A <> User.id B ->
  get_contact (Contacts.id c) B db = None
  /\ update_contact (Contacts.id c) body B db = (None, db)
  /\ update_status_contact (Contacts.id c) st B db = (None, db)
  /\ remove_contact (Contacts.id c) B db = (None, db)
  /\ (forall cid, get_contact cid B db <> Some c)
  /\ (forall skip limit, ~ In c (get_contacts skip limit B db))
  /\ (forall esc query, ~ In c (search_contacts esc db query B))
  /\ (forall today, ~ In c (get_contacts_with_birthdays today db B))
  /\ (forall cid, In c (contacts (snd (update_contact cid body B db))))
  /\ (forall cid, In c (contacts (snd (update_status_contact cid st B db))))
  /\ (forall cid, In c (contacts (snd (remove_contact cid B db)))).
Proof.
  intros Hpk Hin HA HAB.
  assert (Hown : Contacts.user_id c <> User.id B) by congruence.
  pose proof (contacts_facts.foreign_lookup_misses B c db Hpk Hin Hown) as Hmiss.
  unfold get_contact, update_contact, update_status_contact, remove_contact.
  rewrite Hmiss.
  repeat split.
  - intros cid Hf. apply contacts_facts.find_id_and_owner in Hf. tauto.
  - intros skip limit H. now apply contacts_facts.get_contacts_owned in H.
  - intros esc query H. apply contacts_facts.search_contacts_owned in H. tauto.
  - intros today H. now apply contacts_facts.birthdays_owned in H.
  - intros cid.
    destruct (find (id_and_owner cid B) (contacts db)) as [k|] eqn:Hf;
      simpl; [ | exact Hin].
    apply in_map_iff. exists c. split; [ | exact Hin].
    now rewrite (contacts_facts.other_key B c k cid db Hpk Hin Hown Hf).
  - intros cid.
    destruct (find (id_and_owner cid B) (contacts db)) as [k|] eqn:Hf;
      simpl; [ | exact Hin].
    apply in_map_iff. exists c. split; [ | exact Hin].
    now rewrite (contacts_facts.other_key B c k cid db Hpk Hin Hown Hf).
  - intros cid.
    destruct (find (id_and_owner cid B) (contacts db)) as [k|] eqn:Hf;
      simpl; [ | exact Hin].
    apply filter_In. split; [exact Hin | ].
    now rewrite (contacts_facts.other_key B c k cid db Hpk Hin Hown Hf).
Qed.

(** Decides [pk_unique] on a concrete table. *)
Ltac pk_unique_by_evaluation :=
  unfold pk_unique; simpl; repeat constructor; simpl; intuition lia.

Lemma ownership_isolation_witness :
  get_contact 1 sample.bruno sample.db = None
  /\ remove_contact 1 sample.bruno sample.db = (None, sample.db).
Proof.
  pose proof (ownership_isolation sample.alice sample.bruno sample.bob
                sample.db sample.ann_body sample.mark_done) as H.
  destruct H as (Hget & _ & _ & Hdel & _).
  - pk_unique_by_evaluation.
  - simpl. left. reflexivity.
  - reflexivity.
  - simpl. lia.
  - split; [exact Hget | exact Hdel].
Defined.

(** ** Creating a contact *)

(** The Integer column of the phone number keeps the number, not the
    text: a leading zero is lost. *)
Example integer_column_drops_leading_zero :
  integer_column "0501112233" = IntegerValue 501112233.
Proof. reflexivity. Qed.

(** C2, on the code. [create_contact] builds the row without a value for
    [created_at]; the column is declared NOT NULL and has no default, so
    for every body, owner and store the INSERT is refused:
    [create_contact] raises [IntegrityError], persists and returns no
    record, and leaves the store as it was. *)
Theorem create_contact_refused (body : ContactsModel.t) (user : User.t)
  (db : Session) :
  Contacts.created_at (new_contact body user db) = None
  /\ create_contact body user db
     = Raise (IntegrityError
                "NOT NULL constraint failed: contacts.created_at")
  /\ ~ persists_a_record (create_contact body user db)
  /\ session_after db (create_contact body user db) = db.
Proof.
  split; [reflexivity | ]. split; [reflexivity | ]. split; [ | reflexivity].
  intros (c & db' & H). discriminate H.
Qed.

(** ** Updating and removing *)

Lemma lookup_after_update (cid : Z) (user : User.t) (db : Session)
  (pk : Z) (f : Contacts.t -> Contacts.t) :
  (forall r, Contacts.id (f r) = Contacts.id r) ->
  (forall r, Contacts.user_id (f r) = Contacts.user_id r) ->
  get_contact cid user (update_contacts_row pk f db)
  = option_map (fun r => if Contacts.id r =? pk then f r else r)
      (get_contact cid user db).
Proof.
  intros Hid Hown. unfold get_contact, update_contacts_row. cbn [contacts].
  apply find_map_stable. intros r. unfold id_and_owner.
  destruct (Contacts.id r =? pk); [ | reflexivity].
  now rewrite Hid, Hown.
Qed.

(** C5. An update that matches no (contact_id, owner) pair returns absent
    and leaves the whole store as it was. *)
Theorem update_contact_miss (contact_id : Z) (body : ContactsModel.t)
  (user : User.t) (db : Session) :
  get_contact contact_id user db = None ->
  update_contact contact_id body user db = (None, db).
Proof.
  unfold get_contact, update_contact. intros H. now rewrite H.
Qed.

Lemma update_contact_miss_witness :
  get_contact 7 sample.alice sample.db = None
  /\ update_contact 7 sample.ann_body sample.alice sample.db
     = (None, sample.db).
Proof.
  split; [reflexivity | ].
  apply (update_contact_miss 7 sample.ann_body sample.alice sample.db).
  reflexivity.
Defined.

(** C6. When the pair (contact_id, owner) matches the stored contact [c],
    the status update returns [c] with [done] set to the given value and
    every other field as before, and stores it in [c]'s place: the rows
    before and after [c], and the users, are untouched.  The lookup then
    yields the updated record. *)
Theorem update_status_frame (contact_id : Z) (st : ContactsStatusUpdate.t)
  (user : User.t) (db : Session) (c : Contacts.t) :
  pk_unique db ->
  get_contact contact_id user db = Some c ->
  let c' := Contacts.with_done (ContactsStatusUpdate.done st) c in
  exists l1 l2 : list Contacts.t,
    contacts db = l1 ++ c :: l2
    /\ update_status_contact contact_id st user db
       = (Some c', mkSession (l1 ++ c' :: l2) (users db))
    /\ get_contact contact_id user (mkSession (l1 ++ c' :: l2) (users db))
       = Some c'
    /\ Contacts.done c' = ContactsStatusUpdate.done st
    /\ Contacts.id c' = Contacts.id c
    /\ Contacts.first_name c' = Contacts.first_name c
    /\ Contacts.last_name c' = Contacts.last_name c
    /\ Contacts.email c' = Contacts.email c
    /\ Contacts.phone_number c' = Contacts.phone_number c
    /\ Contacts.born_date c' = Contacts.born_date c
    /\ Contacts.description c' = Contacts.description c
    /\ Contacts.created_at c' = Contacts.created_at c
    /\ Contacts.user_id c' = Contacts.user_id c.
Proof.
  intros Hpk Hget c'.
  pose proof Hget as Hfound. unfold get_contact in Hfound.
  apply contacts_facts.find_id_and_owner in Hfound.
  destruct Hfound as (Hin & Hid & Hown).
  destruct (in_split _ _ Hin) as (l1 & l2 & Hsplit).
  exists l1, l2. split; [exact Hsplit | ].
  assert (Hupd : update_contacts_row (Contacts.id c)
                   (Contacts.with_done (ContactsStatusUpdate.done st)) db
                 = mkSession (l1 ++ c' :: l2) (users db)).
  { unfold update_contacts_row. f_equal. unfold pk_unique in Hpk.
    rewrite Hsplit in *. now apply update_row_split. }
  split; [ | split].
  - unfold update_status_contact. unfold get_contact in Hget.
    rewrite Hget. now rewrite Hupd.
  - rewrite <- Hupd, lookup_after_update, Hget by reflexivity.
    simpl. now rewrite Z.eqb_refl.
  - repeat split.
Qed.

Lemma update_status_frame_witness :
  exists l1 l2 : list Contacts.t,
    contacts sample.db = l1 ++ sample.bob :: l2
    /\ update_status_contact 1 sample.mark_done sample.alice sample.db
       = (Some (Contacts.with_done true sample.bob),
          mkSession (l1 ++ Contacts.with_done true sample.bob :: l2)
            (users sample.db)).
Proof.
  destruct (update_status_frame 1 sample.mark_done sample.alice sample.db
              sample.bob) as (l1 & l2 & Hsplit & Hupd & _).
  - pk_unique_by_evaluation.
  - reflexivity.
  - exists l1, l2. split; [exact Hsplit | exact Hupd].
Defined.

(** C7. When the pair (contact_id, owner) matches the stored contact [c],
    the first removal returns [c] as it was stored and takes it, and only
    it, out of the table; a second removal with the same arguments on the
    resulting store returns absent and changes nothing. *)
Theorem remove_contact_twice (contact_id : Z) (user : User.t)
  (db : Session) (c : Contacts.t) :
  pk_unique db ->
  get_contact contact_id user db = Some c ->
  exists l1 l2 : list Contacts.t,
    let db' := mkSession (l1 ++ l2) (users db) in
    contacts db = l1 ++ c :: l2
    /\ remove_contact contact_id user db = (Some c, db')
    /\ ~ In c (contacts db')
    /\ get_contact contact_id user db' = None
    /\ remove_contact contact_id user db' = (None, db').
Proof.
  intros Hpk Hget.
  pose proof Hget as Hfound. unfold get_contact in Hfound.
  apply contacts_facts.find_id_and_owner in Hfound.
  destruct Hfound as (Hin & Hid & Hown).
  destruct (in_split _ _ Hin) as (l1 & l2 & Hsplit).
  unfold pk_unique in Hpk. rewrite Hsplit in Hpk.
  exists l1, l2. cbn zeta.
  assert (Hgone : find (id_and_owner contact_id user) (l1 ++ l2) = None).
  { destruct (find _ _) as [k|] eqn:Hf; [exfalso | reflexivity].
    apply contacts_facts.find_id_and_owner in Hf.
    destruct Hf as (Hk & Hkid & _).
    pose proof (pk_unique_split l1 l2 c k Hpk Hk) as Hne.
    apply Z.eqb_neq in Hne. congruence. }
  repeat split.
  - exact Hsplit.
  - unfold remove_contact. unfold get_contact in Hget. rewrite Hget.
    unfold delete_contacts_row. rewrite Hsplit.
    now rewrite delete_row_split.
  - cbn [contacts]. intros Hc.
    pose proof (pk_unique_split l1 l2 c c Hpk Hc) as Hne.
    now rewrite Z.eqb_refl in Hne.
  - unfold get_contact. cbn [contacts]. exact Hgone.
  - unfold remove_contact. cbn [contacts]. now rewrite Hgone.
Qed.

Lemma remove_contact_twice_witness :
  exists db' : Session,
    remove_contact 1 sample.alice sample.db = (Some sample.bob, db')
    /\ remove_contact 1 sample.alice db' = (None, db').
Proof.
  destruct (remove_contact_twice 1 sample.alice sample.db sample.bob)
    as (l1 & l2 & _ & Hfirst & _ & _ & Hsecond).
  - pk_unique_by_evaluation.
  - reflexivity.
  - eexists. split; [exact Hfirst | exact Hsecond].
Defined.

(** ** Dates *)
Module date_facts.
Import date.

Lemma days_in_month_bounds (y m : Z) : 28 <= days_in_month y m <= 31.
Proof.
  unfold days_in_month.
  destruct (m =? 2); [destruct (is_leap y); lia | ].
  destruct ((m =? 4) || (m =? 6) || (m =? 9) || (m =? 11)); lia.
Qed.

Lemma add_days_succ (d : t) (n : nat) :
  add_days d (S n) = tomorrow (add_days d n).
Proof. reflexivity. Qed.

(** Adding days that fit in the month moves the day only. *)
Lemma add_days_within (d : t) (n : nat) :
  day d + Z.of_nat n <= days_in_month (year d) (month d) ->
  add_days d n = mk (year d) (month d) (day d + Z.of_nat n).
Proof.
  induction n as [|n IH]; intros Hfit.
  - destruct d as [y m dd]. simpl. f_equal. lia.
  - rewrite add_days_succ, IH by lia. unfold tomorrow. cbn [year month day].
    destruct (Z.ltb_spec (day d + Z.of_nat n)
                (days_in_month (year d) (month d))); [ | lia].
    f_equal. lia.
Qed.

(** Adding up to 28 days that do not fit in the month lands in the next
    month, on the day left over. *)
Lemma add_days_rollover (d : t) (n : nat) :
  valid d -> (n <= 28)%nat ->
  day d + Z.of_nat n > days_in_month (year d) (month d) ->
  add_days d n
  = let left_over :=
      day d + Z.of_nat n - days_in_month (year d) (month d) in
    if month d <? 12 then mk (year d) (month d + 1) left_over
    else mk (year d + 1) 1 left_over.
Proof.
  intros [Hm Hd]. cbn zeta. induction n as [|n IH]; intros Hn Hover.
  - simpl in Hover. lia.
  - rewrite add_days_succ.
    destruct (Z_le_gt_dec (day d + Z.of_nat n)
                (days_in_month (year d) (month d))) as [Hfit | Hover'].
    + rewrite add_days_within by exact Hfit.
      unfold tomorrow. cbn [year month day].
      destruct (Z.ltb_spec (day d + Z.of_nat n)
                  (days_in_month (year d) (month d))); [lia | ].
      destruct (month d <? 12); f_equal; lia.
    + rewrite IH by lia. unfold tomorrow.
      destruct (month d <? 12); cbn [year month day].
      * pose proof (days_in_month_bounds (year d) (month d + 1)).
        destruct (Z.ltb_spec
                    (day d + Z.of_nat n - days_in_month (year d) (month d))
                    (days_in_month (year d) (month d + 1))); [ | lia].
        f_equal. lia.
      * pose proof (days_in_month_bounds (year d + 1) 1).
        destruct (Z.ltb_spec
                    (day d + Z.of_nat n - days_in_month (year d) (month d))
                    (days_in_month (year d + 1) 1)); [ | lia].
        f_equal. lia.
Qed.

Lemma tomorrow_valid (d : t) : valid d -> valid (tomorrow d).
Proof.
  unfold valid, tomorrow. intros [Hm Hd].
  destruct (Z.ltb_spec (day d) (days_in_month (year d) (month d)));
    [cbn [year month day]; lia | ].
  destruct (Z.ltb_spec (month d) 12); cbn [year month day].
  - pose proof (days_in_month_bounds (year d) (month d + 1)). lia.
  - pose proof (days_in_month_bounds (year d + 1) 1). lia.
Qed.

Lemma add_days_valid (d : t) (n : nat) : valid d -> valid (add_days d n).
Proof.
  intros Hv. induction n as [|n IH]; [exact Hv | ].
  rewrite add_days_succ. now apply tomorrow_valid.
Qed.

Example add_days_leap_february :
  add_days (mk 2024 2 25) 7 = mk 2024 3 3.
Proof. reflexivity. Qed.

Example add_days_plain_february :
  add_days (mk 2023 2 25) 7 = mk 2023 3 4.
Proof. reflexivity. Qed.

Example add_days_new_year :
  add_days (mk 2023 12 28) 7 = mk 2024 1 4.
Proof. reflexivity. Qed.

(** The day of the month one week on. *)
Lemma next_week_day (d : t) :
  valid d ->
  day (add_days d 7)
  = if day d + 7 <=? days_in_month (year d) (month d)
    then day d + 7
    else day d + 7 - days_in_month (year d) (month d).
Proof.
  intros Hv.
  destruct (Z.leb_spec (day d + 7) (days_in_month (year d) (month d))).
  - now rewrite add_days_within.
  - rewrite add_days_rollover by (auto; lia). cbn zeta.
    destruct (month d <? 12); reflexivity.
Qed.

End date_facts.

(** ** Upcoming birthdays *)

Lemma filter_filter_andb {A : Type} (p q : A -> bool) (l : list A) :
  filter p (filter q l) = filter (fun x => q x && p x) l.
Proof.
  induction l as [|x l IH]; simpl; [reflexivity | ].
  destruct (q x); simpl; [destruct (p x) | ]; now rewrite IH.
Qed.

Lemma filter_none {A : Type} (p : A -> bool) (l : list A) :
  (forall x, p x = false) -> filter p l = [].
Proof.
  intros H. induction l as [|x l IH]; simpl; [reflexivity | ].
  now rewrite H.
Qed.

(** Away from the end of the month the filter is the one the
    specification words. *)
Lemma birthdays_within_month (today : date.t) (db : Session)
  (user : User.t) :
  date.valid today ->
  date.day today + 7
  <= date.days_in_month (date.year today) (date.month today) ->
  get_contacts_with_birthdays today db user
  = filter (upcoming_as_specified today user) (contacts db).
Proof.
  intros Hv Hfit. unfold get_contacts_with_birthdays. cbn zeta.
  rewrite filter_filter_andb, date_facts.next_week_day by exact Hv.
  destruct (Z.leb_spec (date.day today + 7)
              (date.days_in_month (date.year today) (date.month today)));
    [ | lia].
  apply filter_ext. intros c. unfold upcoming_as_specified, owned_by.
  rewrite Z.geb_leb. now rewrite !andb_assoc.
Qed.

(** C3, at the end of a month. On 28 January 2024 alice's contact Bob,
    born on 30 January, is born in the current month on a day between
    today's day and today's day plus 7, and is one of the contacts with a
    birthday in the next week; [get_contacts_with_birthdays] returns
    nothing. *)
Theorem birthdays_month_end_divergence :
  let today := date.mk 2024 1 28 in
  In sample.bob (contacts sample.db)
  /\ upcoming_as_specified today sample.alice sample.bob = true
  /\ filter (upcoming_as_specified today sample.alice) (contacts sample.db)
     = [sample.bob]
  /\ get_contacts_with_birthdays today sample.db sample.alice = [].
Proof.
  cbn zeta. repeat split.
  simpl. left. reflexivity.
Qed.

(** C10. When today's day plus 7 exceeds the length of the current month,
    the upper bound of the filter is the day of a date in the next month,
    smaller than today's day, and [get_contacts_with_birthdays] returns
    the empty list for every owner and every store. *)
Theorem birthdays_collapse_at_month_end (today : date.t) (db : Session)
  (user : User.t) :
  date.valid today ->
  date.day today + 7
  > date.days_in_month (date.year today) (date.month today) ->
  date.day (date.add_days today 7) < date.day today
  /\ get_contacts_with_birthdays today db user = [].
Proof.
  intros Hv Hover.
  assert (Hday : date.day (date.add_days today 7) < date.day today).
  { rewrite date_facts.next_week_day by exact Hv.
    pose proof (date_facts.days_in_month_bounds (date.year today)
                  (date.month today)).
    destruct (Z.leb_spec (date.day today + 7)
                (date.days_in_month (date.year today) (date.month today)));
      lia. }
  split; [exact Hday | ].
  unfold get_contacts_with_birthdays. cbn zeta.
  apply filter_none. intros c.
  destruct (Z.geb_spec (date.day (Contacts.born_date c)) (date.day today));
    destruct (Z.leb_spec (date.day (Contacts.born_date c))
                (date.day (date.add_days today 7)));
    rewrite ?andb_false_r; try reflexivity.
  lia.
Qed.

Lemma birthdays_collapse_at_month_end_witness :
  date.valid (date.mk 2024 1 28)
  /\ get_contacts_with_birthdays (date.mk 2024 1 28) sample.db sample.alice
     = [].
Proof.
  assert (Hv : date.valid (date.mk 2024 1 28)).
  { unfold date.valid. vm_compute. intuition discriminate. }
  split; [exact Hv | ].
  apply (birthdays_collapse_at_month_end (date.mk 2024 1 28) sample.db
           sample.alice Hv).
  vm_compute. reflexivity.
Defined.

(** ** Users *)

Import repository_users.

(** What the routes raise on an absent contact is of the not-found class. *)
Lemma read_contact_absent_not_found (contacts_id : Z) (db : Session)
  (current_user : User.t) :
  get_contact contacts_id current_user db = None ->
  raises_not_found (routes_contacts.read_contact contacts_id db current_user).
Proof.
  intros H. unfold routes_contacts.read_contact. rewrite H.
  eexists. split; reflexivity.
Qed.

(** C8, as amended. When a user with the email exists, [confirmed_email]
    sets the [confirmed] flag of the first such user, who is then found
    confirmed under the same email, and leaves the contacts and every
    user with another key as they were.  When no such user exists, the
    assignment to the absent lookup result raises an [AttributeError],
    which is not an error of the not-found class, and nothing is
    stored. *)
Theorem confirmed_email_outcome (email : string) (db : Session) :
  match get_user_by_email email db with
  | Some u =>
      let db' := update_users_row (User.id u) (User.with_confirmed true) db in
      confirmed_email email db = Ok db'
      /\ get_user_by_email email db' = Some (User.with_confirmed true u)
      /\ User.confirmed (User.with_confirmed true u) = true
      /\ contacts db' = contacts db
      /\ (forall r, In r (users db) -> User.id r <> User.id u ->
                    In r (users db'))
  | None =>
      exists msg : string,
        confirmed_email email db = Raise (AttributeError msg)
        /\ is_not_found (AttributeError msg) = false
  end.
Proof.
  unfold confirmed_email.
  destruct (get_user_by_email email db) as [u|] eqn:Hget.
  - cbn zeta. repeat split.
    + unfold get_user_by_email, update_users_row in *. cbn [users].
      rewrite find_map_stable, Hget.
      * simpl. now rewrite Z.eqb_refl.
      * intros r. now destruct (User.id r =? User.id u).
    + intros r Hin Hne. unfold update_users_row. cbn [users].
      apply in_map_iff. exists r. split; [ | exact Hin].
      apply Z.eqb_neq in Hne. now rewrite Hne.
  - eexists. split; reflexivity.
Qed.

(** C8, as stated, fails: nobody in the sample store has the email, and
    the error raised is not of the not-found class. *)
Lemma confirmed_email_absent_not_a_not_found :
  get_user_by_email "nobody@example.com" sample.db = None
  /\ ~ raises_not_found (confirmed_email "nobody@example.com" sample.db).
Proof.
  split; [reflexivity | ].
  intros (e & Hraise & Hclass). vm_compute in Hraise.
  injection Hraise as <-. discriminate Hclass.
Qed.

(** The UNIQUE test of the INSERT is the lookup by email. *)
Lemma email_taken_iff_found (email : string) (db : Session) :
  existsb (fun u => String.eqb (User.email u) email) (users db)
  = match get_user_by_email email db with
    | Some _ => true
    | None => false
    end.
Proof.
  unfold get_user_by_email. induction (users db) as [|u l IH]; simpl;
    [reflexivity | ].
  destruct (String.eqb (User.email u) email); [reflexivity | exact IH].
Qed.

(** C9, as amended. Whatever the avatar collaborator does, the outcome
    of [create_user] is decided by the email alone.  When no stored user
    has the email of the body, [create_user] returns and stores, after
    the users already there, a new user with the username, email and
    password of the body, not confirmed, without refresh token, created
    now, under a key no stored user has; the avatar is the URL the
    collaborator returned for the body's email, and is absent when the
    collaborator raised, in which case the error is printed and goes no
    further.  When a stored user has the email, the INSERT is refused:
    [create_user] raises [IntegrityError] and stores nothing, whether
    the collaborator failed or not. *)
Theorem create_user_avatar_tolerant (get_image : string -> result string)
  (now : datetime) (body : UserModel.t) (db : Session) :
  let avatar :=
    match get_image (UserModel.email body) with
    | Ok url => Some url
    | Raise _ => None
    end in
  let printed :=
    match get_image (UserModel.email body) with
    | Ok _ => []
    | Raise e => [e]
    end in
  match get_user_by_email (UserModel.email body) db with
  | None =>
      exists u : User.t,
        create_user get_image now body db
        = (Ok (u, mkSession (contacts db) (users db ++ [u])), printed)
        /\ User.username u = UserModel.username body
        /\ User.email u = UserModel.email body
        /\ User.password u = UserModel.password body
        /\ User.created_at u = now
        /\ User.confirmed u = false
        /\ User.refresh_token u = None
        /\ User.avatar u = avatar
        /\ ~ In (User.id u) (map User.id (users db))
  | Some _ =>
      exists msg : string,
        create_user get_image now body db
        = (Raise (IntegrityError msg), printed)
        /\ session_after db (fst (create_user get_image now body db)) = db
  end.
Proof.
  cbn zeta. unfold create_user, insert_users_row.
  destruct (get_image (UserModel.email body)) as [url | e];
    cbn [new_user User.email];
    rewrite email_taken_iff_found;
    destruct (get_user_by_email (UserModel.email body) db) as [old|].
  - eexists. split; reflexivity.
  - eexists. split; [reflexivity | ].
    cbn [User.username User.email User.password User.created_at
         User.confirmed User.refresh_token User.avatar User.id].
    repeat split. apply next_id_fresh.
  - eexists. split; reflexivity.
  - eexists. split; [reflexivity | ].
    cbn [User.username User.email User.password User.created_at
         User.confirmed User.refresh_token User.avatar User.id].
    repeat split. apply next_id_fresh.
Qed.

(** C9, as stated, fails: a second registration under the email of alice
    is refused, although the avatar collaborator returned a URL, and no
    user is persisted. *)
Lemma create_user_duplicate_email_refused :
  fst (create_user sample.gravatar_up 1700000200 sample.alice_again
         sample.db)
  = Raise (IntegrityError "UNIQUE constraint failed: users.email")
  /\ ~ persists_a_record
         (fst (create_user sample.gravatar_up 1700000200 sample.alice_again
                 sample.db)).
Proof.
  split; [reflexivity | ].
  intros (u & db' & H). discriminate H.
Qed.

(** With the avatar service down, carla is still registered, without
    avatar. *)
Example create_user_avatar_service_down :
  let get_image := fun _ : string => Raise (Exception "connection refused") in
  let body := UserModel.mk "carla" "carla@example.com" "secret3" in
  create_user get_image 1700000200 body sample.db
  = (Ok (User.mk 3 "carla" "carla@example.com" "secret3" 1700000200
           None None false,
         mkSession [sample.bob; sample.ann]
           [sample.alice; sample.bruno;
            User.mk 3 "carla" "carla@example.com" "secret3" 1700000200
              None None false]),
     [Exception "connection refused"]).
Proof. reflexivity. Qed.

(** ** SQL patterns *)
Module sql_facts.
Import sql.

Lemma lower_app (a b : string) :
  lower (a ++ b)%string = (lower a ++ lower b)%string.
Proof.
  induction a as [|c a IH]; simpl; [reflexivity | now rewrite IH].
Qed.

(** Case folding neither makes nor removes a pattern character. *)
Lemma is_meta_lower (esc : bool) (c : ascii) :
  is_meta esc (lower_ascii c) = is_meta esc c.
Proof.
  destruct esc; destruct c as [[] [] [] [] [] [] [] []]; reflexivity.
Qed.

Lemma no_meta_lower (esc : bool) (q : string) :
  no_meta esc (lower q) = no_meta esc q.
Proof.
  induction q as [|c q IH]; simpl; [reflexivity | ].
  now rewrite is_meta_lower, IH.
Qed.

Example like_underscore : like true "abc" "a_c" = true.
Proof. reflexivity. Qed.

Example like_percent : like true "abc" "a%" = true.
Proof. reflexivity. Qed.

Example like_anchored : like true "abc" "b" = false.
Proof. reflexivity. Qed.

Example like_escaped_percent :
  like true "50%" "50\%" = true /\ like true "50x" "50\%" = false.
Proof. split; reflexivity. Qed.

Example like_backslash_literal :
  like false "a\b" "a\b" = true /\ like true "a\b" "a\b" = false.
Proof. split; reflexivity. Qed.

Example ilike_folds_case : ilike true "Smith" "%SMI%" = true.
Proof. reflexivity. Qed.

Section Matching.

Variable esc : bool.

Lemma tokens_literal (c : ascii) (rest : string) :
  is_meta esc c = false ->
  tokens esc (String c rest) = Lit c :: tokens esc rest.
Proof.
  unfold is_meta. intros H.
  apply orb_false_iff in H. destruct H as [H Hesc].
  apply orb_false_iff in H. destruct H as [Hpercent Hunderscore].
  cbn [tokens]. now rewrite Hesc, Hpercent, Hunderscore.
Qed.

Lemma tokens_percent (rest : string) :
  tokens esc (String percent rest) = Any :: tokens esc rest.
Proof.
  cbn [tokens].
  replace (esc && Ascii.eqb percent backslash) with false
    by (now destruct esc).
  reflexivity.
Qed.

Lemma matches_any_unfold (p : list token) (s : string) :
  matches (Any :: p) s
  = matches p s
    || match s with
       | EmptyString => false
       | String _ s' => matches (Any :: p) s'
       end.
Proof. destruct s; reflexivity. Qed.

(** [%] followed by [p] matches when [p] matches some suffix. *)
Lemma matches_any (p : list token) (s : string) :
  matches (Any :: p) s = true
  <-> exists pre t : string, s = (pre ++ t)%string /\ matches p t = true.
Proof.
  split.
  - induction s as [|a s IH]; rewrite matches_any_unfold; intros H;
      apply orb_true_iff in H; destruct H as [H | H].
    + exists EmptyString, EmptyString. auto.
    + discriminate H.
    + exists EmptyString, (String a s). auto.
    + destruct (IH H) as (pre & t & -> & Ht).
      exists (String a pre), t. auto.
  - intros (pre & t & -> & Ht). induction pre as [|a pre IH].
    + rewrite matches_any_unfold. simpl. now rewrite Ht.
    + change (String a pre ++ t)%string with (String a (pre ++ t)%string).
      rewrite matches_any_unfold. cbv iota.
      rewrite IH. apply orb_true_r.
Qed.

Lemma matches_any_alone (s : string) : matches [Any] s = true.
Proof.
  apply matches_any. exists s, EmptyString. split; [ | reflexivity].
  induction s as [|a s IH]; simpl; [reflexivity | now rewrite <- IH].
Qed.

(** A pattern that starts with literal characters matches the strings
    that start with them and go on as the rest of the pattern says. *)
Lemma matches_literal_prefix (q r s : string) :
  no_meta esc q = true ->
  matches (tokens esc (q ++ r)%string) s = true
  <-> exists t : string,
        s = (q ++ t)%string /\ matches (tokens esc r) t = true.
Proof.
  revert s. induction q as [|c q IH]; intros s Hq.
  - simpl. split.
    + intros H. exists s. auto.
    + intros (t & -> & H). exact H.
  - simpl in Hq. apply andb_true_iff in Hq. destruct Hq as [Hc Hq].
    apply negb_true_iff in Hc.
    simpl append. rewrite (tokens_literal c _ Hc). split.
    + destruct s as [|d s]; simpl; [intros H; discriminate H | ].
      intros H. apply andb_true_iff in H. destruct H as [Hcd H].
      apply Ascii.eqb_eq in Hcd. subst d.
      apply (IH s Hq) in H. destruct H as (t & -> & Ht).
      exists t. auto.
    + intros (t & -> & Ht). simpl. rewrite Ascii.eqb_refl. simpl.
      apply (IH _ Hq). exists t. auto.
Qed.

(** For a query without pattern characters, [LIKE '%query%'] is
    substring containment. *)
Lemma like_contains (value q : string) :
  no_meta esc q = true ->
  like esc value (pattern_of q) = true <-> contains value q.
Proof.
  intros Hq. unfold like, pattern_of, contains.
  rewrite tokens_percent, matches_any. split.
  - intros (pre & t & -> & H).
    apply (matches_literal_prefix q _ t Hq) in H.
    destruct H as (post & -> & _). exists pre, post. reflexivity.
  - intros (pre & post & ->). exists pre, (q ++ post)%string.
    split; [reflexivity | ].
    apply (matches_literal_prefix q _ _ Hq). exists post.
    split; [reflexivity | ].
    rewrite tokens_percent. apply matches_any_alone.
Qed.

Lemma lower_pattern_of (q : string) :
  lower (pattern_of q) = pattern_of (lower q).
Proof.
  unfold pattern_of. simpl. now rewrite lower_app.
Qed.

(** For such a query, [ILIKE '%query%'] is containment up to case. *)
Lemma ilike_icontains (value q : string) :
  no_meta esc q = true ->
  ilike esc value (pattern_of q) = true <-> icontains value q.
Proof.
  intros Hq. unfold ilike, icontains. rewrite lower_pattern_of.
  apply like_contains. now rewrite no_meta_lower.
Qed.

End Matching.

End sql_facts.

(** ** Search *)

Lemma occurs_app (a : ascii) (s t : string) :
  occurs a (s ++ t)%string = occurs a s || occurs a t.
Proof.
  induction s as [|b s IH]; simpl; [reflexivity | ].
  now rewrite IH, orb_assoc.
Qed.

(** A string that contains [q] has the first character of [q]. *)
Lemma contains_occurs (s q : string) (a : ascii) :
  contains s (String a q) -> occurs a s = true.
Proof.
  intros (pre & post & ->). rewrite occurs_app. simpl.
  rewrite Ascii.eqb_refl. simpl. apply orb_true_r.
Qed.

Lemma search_contacts_nonempty (esc : bool) (db : Session) (q : string)
  (user : User.t) :
  q <> EmptyString ->
  search_contacts esc db (Some q) user
  = filter (fun c => owned_by user c && matches_query esc q c) (contacts db).
Proof.
  intros Hq. destruct q as [|a q]; [contradiction | ].
  unfold search_contacts. apply filter_filter_andb.
Qed.

Lemma matches_query_specified (esc : bool) (q : string) (user : User.t)
  (c : Contacts.t) :
  sql.no_meta esc q = true ->
  owned_by user c && matches_query esc q c = true
  <-> found_as_specified q user c.
Proof.
  intros Hq. unfold found_as_specified, matches_query, owned_by.
  rewrite andb_true_iff, !orb_true_iff, Z.eqb_eq.
  rewrite !(sql_facts.ilike_icontains esc _ q Hq). tauto.
Qed.

(** C4, as amended. An absent or empty query gives the empty list.  Any
    other query gives, in the order of the table, the owner's contacts
    whose first_name, last_name or email matches the pattern made of the
    query between two [%], up to the case of letters; a returned contact
    is stored and belongs to the owner.  When the query holds none of the
    pattern characters ([%], [_], and the backslash where the database
    reads it as an escape), these are exactly the owner's contacts whose
    first_name, last_name or email contains the query up to case. *)
Theorem search_contacts_semantics (esc : bool) (db : Session)
  (user : User.t) :
  search_contacts esc db None user = []
  /\ search_contacts esc db (Some EmptyString) user = []
  /\ (forall q c,
        In c (search_contacts esc db (Some q) user) ->
        In c (contacts db) /\ Contacts.user_id c = User.id user)
  /\ (forall q,
        q <> EmptyString ->
        search_contacts esc db (Some q) user
        = filter (fun c => owned_by user c && matches_query esc q c)
            (contacts db))
  /\ (forall q c,
        sql.no_meta esc q = true ->
        owned_by user c && matches_query esc q c = true
        <-> found_as_specified q user c)
  /\ (forall q c,
        q <> EmptyString ->
        sql.no_meta esc q = true ->
        In c (search_contacts esc db (Some q) user)
        <-> In c (contacts db) /\ found_as_specified q user c).
Proof.
  split; [reflexivity | ]. split; [reflexivity | ].
  split; [intros q c; apply contacts_facts.search_contacts_owned | ].
  split; [intros q; apply search_contacts_nonempty | ].
  split; [intros q c; apply matches_query_specified | ].
  intros q c Hne Hq. rewrite search_contacts_nonempty by exact Hne.
  rewrite filter_In, (matches_query_specified esc q user c Hq). tauto.
Qed.

(** The search for [smi] by alice finds Bob Smith, and only him. *)
Lemma search_contacts_semantics_witness :
  sql.no_meta true "smi" = true
  /\ (In sample.bob (search_contacts true sample.db (Some "smi"%string) sample.alice)
      <-> In sample.bob (contacts sample.db)
          /\ found_as_specified "smi" sample.alice sample.bob).
Proof.
  split; [reflexivity | ].
  apply (search_contacts_semantics true sample.db sample.alice).
  - discriminate.
  - reflexivity.
Defined.

(** C4, as stated, fails: for the query [_] the search of alice returns
    Bob, none of whose first name, last name and email contains an
    underscore. *)
Lemma search_underscore_is_a_wildcard :
  search_contacts true sample.db (Some "_"%string) sample.alice = [sample.bob]
  /\ ~ found_as_specified "_" sample.alice sample.bob.
Proof.
  split; [reflexivity | ].
  intros (_ & [H | [H | H]]); apply contains_occurs in H; discriminate H.
Qed.

(** * Further properties of the repository *)

(** ** Listing with [offset] and [limit] *)

(** The number of contacts on a page, for a skip and a limit that are
    not negative: [limit], or what is left of the owner's contacts after
    [skip] of them when that is less; so a limit of 0, or a skip past
    the owner's last contact, gives the empty list. *)
Theorem get_contacts_length (skip limit : Z) (user : User.t)
  (db : Session) :
  0 <= skip ->
  0 <= limit ->
  Z.of_nat (List.length (get_contacts skip limit user db))
  = Z.min limit
      (Z.max 0
         (Z.of_nat (List.length (filter (owned_by user) (contacts db)))
          - skip)).
Proof.
  intros Hskip Hlimit. unfold get_contacts, sql_limit, sql_offset.
  destruct (Z.ltb_spec limit 0); [lia | ].
  rewrite length_firstn, length_skipn. lia.
Qed.

Lemma get_contacts_length_witness :
  Z.of_nat (List.length (get_contacts 0 1 sample.alice sample.db)) = 1.
Proof.
  rewrite (get_contacts_length 0 1 sample.alice sample.db).
  - reflexivity.
  - lia.
  - lia.
Defined.

Lemma firstn_add {A : Type} (a b : nat) (l : list A) :
  firstn (a + b) l = firstn a l ++ firstn b (skipn a l).
Proof.
  revert l. induction a as [|a IH]; intros [|x l]; simpl;
    try reflexivity.
  - now rewrite firstn_nil.
  - now rewrite IH.
Qed.

Lemma skipn_add {A : Type} (a b : nat) (l : list A) :
  skipn (a + b) l = skipn b (skipn a l).
Proof.
  revert l. induction a as [|a IH]; intros [|x l]; simpl;
    try reflexivity.
  - now rewrite skipn_nil.
  - apply IH.
Qed.

(** Consecutive pages join into one page, for a skip and limits that
    are not negative: nothing is lost or repeated between a page of [a]
    contacts and the page of [b] contacts that starts where it ends. *)
Theorem get_contacts_pages (skip a b : Z) (user : User.t) (db : Session) :
  0 <= skip ->
  0 <= a ->
  0 <= b ->
  get_contacts skip (a + b) user db
  = get_contacts skip a user db ++ get_contacts (skip + a) b user db.
Proof.
  intros Hskip Ha Hb. unfold get_contacts, sql_limit, sql_offset.
  destruct (Z.ltb_spec (a + b) 0); [lia | ].
  destruct (Z.ltb_spec a 0); [lia | ].
  destruct (Z.ltb_spec b 0); [lia | ].
  rewrite !Z2Nat.inj_add by lia. now rewrite firstn_add, skipn_add.
Qed.

Lemma get_contacts_pages_witness :
  get_contacts 0 (1 + 1) sample.bruno sample.db
  = get_contacts 0 1 sample.bruno sample.db
    ++ get_contacts (0 + 1) 1 sample.bruno sample.db.
Proof.
  apply (get_contacts_pages 0 1 1 sample.bruno sample.db); lia.
Defined.

Lemma get_contacts_all (user : User.t) (db : Session) :
  get_contacts 0 (Z.of_nat (List.length (contacts db))) user db
  = filter (owned_by user) (contacts db).
Proof.
  unfold get_contacts, sql_limit, sql_offset.
  destruct (Z.ltb_spec (Z.of_nat (List.length (contacts db))) 0); [lia | ].
  rewrite Nat2Z.id. simpl skipn. apply firstn_all2.
  induction (contacts db) as [|r l IH]; simpl; [constructor | ].
  destruct (owned_by user r); simpl; lia.
Qed.

Lemma find_owned_hit (user : User.t) (c : Contacts.t) (l : list Contacts.t) :
  NoDup (map Contacts.id l) -> In c l ->
  Contacts.user_id c = User.id user ->
  find (id_and_owner (Contacts.id c) user) l = Some c.
Proof.
  intros Hnd Hin Hown.
  destruct (find (id_and_owner (Contacts.id c) user) l) as [k|] eqn:Hf.
  - apply contacts_facts.find_id_and_owner in Hf.
    destruct Hf as (Hk & Hid & _). f_equal.
    now apply (pk_unique_inj l k c).
  - exfalso. apply (find_none _ _ Hf) in Hin. unfold id_and_owner in Hin.
    rewrite Z.eqb_refl in Hin. simpl in Hin. apply Z.eqb_neq in Hin. auto.
Qed.

(** Listing and lookup agree: with unique keys, a contact listed on any
    page is the one the lookup by its id returns to the same user, and
    the contact a lookup returns is on the user's complete listing. *)
Theorem listing_and_lookup_agree (user : User.t) (db : Session)
  (c : Contacts.t) :
  pk_unique db ->
  (forall skip limit,
      In c (get_contacts skip limit user db) ->
      get_contact (Contacts.id c) user db = Some c)
  /\ (forall cid,
        get_contact cid user db = Some c ->
        In c (get_contacts 0 (Z.of_nat (List.length (contacts db))) user
                db)).
Proof.
  intros Hpk. split.
  - intros skip limit Hin.
    pose proof (contacts_facts.get_contacts_owned _ _ _ _ _ Hin) as Hown.
    unfold get_contacts in Hin. apply contacts_facts.In_page in Hin.
    apply filter_In in Hin. destruct Hin as [Hin _].
    now apply find_owned_hit.
  - intros cid Hget. apply contacts_facts.find_id_and_owner in Hget.
    destruct Hget as (Hin & _ & Hown). rewrite get_contacts_all.
    apply filter_In. split; [exact Hin | ]. now apply Z.eqb_eq.
Qed.

Lemma listing_and_lookup_agree_witness :
  get_contact 1 sample.alice sample.db = Some sample.bob
  /\ In sample.bob (get_contacts 0 2 sample.alice sample.db).
Proof.
  destruct (listing_and_lookup_agree sample.alice sample.db sample.bob)
    as [Hlisted Hfound].
  - pk_unique_by_evaluation.
  - split.
    + apply (Hlisted 0 5). simpl. left. reflexivity.
    + apply (Hfound 1). reflexivity.
Defined.

(** ** Updates *)

(** What a lookup followed by the UPDATE of the found row does, for any
    assignments [f] that keep the key and the owner. *)
Lemma update_found_row (cid : Z) (user : User.t) (db : Session)
  (c : Contacts.t) (f : Contacts.t -> Contacts.t) :
  (forall r, Contacts.id (f r) = Contacts.id r) ->
  (forall r, Contacts.user_id (f r) = Contacts.user_id r) ->
  find (id_and_owner cid user) (contacts db) = Some c ->
  find (id_and_owner cid user)
    (contacts (update_contacts_row (Contacts.id c) f db))
  = Some (f c).
Proof.
  intros Hid Hown Hf.
  change (get_contact cid user (update_contacts_row (Contacts.id c) f db)
          = Some (f c)).
  rewrite lookup_after_update by assumption.
  unfold get_contact. rewrite Hf. simpl. now rewrite Z.eqb_refl.
Qed.

Lemma update_row_twice (pk : Z) (f g : Contacts.t -> Contacts.t)
  (db : Session) :
  (forall r, Contacts.id (f r) = Contacts.id r) ->
  update_contacts_row pk g (update_contacts_row pk f db)
  = update_contacts_row pk (fun r => g (f r)) db.
Proof.
  intros Hid. unfold update_contacts_row. cbn [contacts users]. f_equal.
  rewrite map_map. apply map_ext. intros r.
  destruct (Contacts.id r =? pk) eqn:Hr; [ | now rewrite Hr].
  now rewrite Hid, Hr.
Qed.

Lemma update_row_ext (pk : Z) (f g : Contacts.t -> Contacts.t)
  (db : Session) :
  (forall r, f r = g r) ->
  update_contacts_row pk f db = update_contacts_row pk g db.
Proof.
  intros H. unfold update_contacts_row. f_equal. apply map_ext.
  intros r. now rewrite H.
Qed.

(** When the pair (contact_id, owner) matches the stored contact [c],
    [update_contact] returns [c] with first_name, last_name, email and
    born_date taken from the body, with the phone number that the
    Integer column makes of the body's (the number, without leading
    zeros, when it is a decimal numeral) and with id, description,
    created_at, done and user_id as before, and stores it in [c]'s
    place; the rows before and after it and the users are
    untouched, and the lookup then yields the updated record. *)
Theorem update_contact_frame (contact_id : Z) (body : ContactsModel.t)
  (user : User.t) (db : Session) (c : Contacts.t) :
  pk_unique db ->
  get_contact contact_id user db = Some c ->
  let c' := assign_body body c in
  exists l1 l2 : list Contacts.t,
    contacts db = l1 ++ c :: l2
    /\ update_contact contact_id body user db
       = (Some c', mkSession (l1 ++ c' :: l2) (users db))
    /\ get_contact contact_id user (mkSession (l1 ++ c' :: l2) (users db))
       = Some c'
    /\ Contacts.first_name c' = ContactsModel.first_name body
    /\ Contacts.last_name c' = ContactsModel.last_name body
    /\ Contacts.email c' = ContactsModel.email body
    /\ Contacts.phone_number c'
       = integer_column (ContactsModel.phone_number body)
    /\ Contacts.born_date c' = ContactsModel.born_date body
    /\ Contacts.id c' = Contacts.id c
    /\ Contacts.description c' = Contacts.description c
    /\ Contacts.created_at c' = Contacts.created_at c
    /\ Contacts.done c' = Contacts.done c
    /\ Contacts.user_id c' = Contacts.user_id c.
Proof.
  intros Hpk Hget c'. unfold get_contact in Hget.
  destruct (contacts_facts.find_id_and_owner _ _ _ _ Hget) as (Hin & _ & _).
  destruct (in_split _ _ Hin) as (l1 & l2 & Hsplit).
  exists l1, l2. split; [exact Hsplit | ].
  assert (Hupd : update_contacts_row (Contacts.id c) (assign_body body) db
                 = mkSession (l1 ++ c' :: l2) (users db)).
  { unfold update_contacts_row. f_equal. unfold pk_unique in Hpk.
    rewrite Hsplit in *. now apply update_row_split. }
  split; [ | split].
  - unfold update_contact. now rewrite Hget, Hupd.
  - rewrite <- Hupd. unfold get_contact.
    now apply update_found_row.
  - repeat split.
Qed.

Lemma update_contact_frame_witness :
  exists l1 l2 : list Contacts.t,
    contacts sample.db = l1 ++ sample.ann :: l2
    /\ update_contact 2 sample.bob_body sample.bruno sample.db
       = (Some (assign_body sample.bob_body sample.ann),
          mkSession (l1 ++ assign_body sample.bob_body sample.ann :: l2)
            (users sample.db)).
Proof.
  destruct (update_contact_frame 2 sample.bob_body sample.bruno sample.db
              sample.ann) as (l1 & l2 & Hsplit & Hupd & _).
  - pk_unique_by_evaluation.
  - reflexivity.
  - exists l1, l2. split; [exact Hsplit | exact Hupd].
Defined.

(** Updating twice with the same body is the same as updating once: the
    second call returns what the first returned and leaves the store of
    the first. *)
Theorem update_contact_idempotent (contact_id : Z) (body : ContactsModel.t)
  (user : User.t) (db : Session) :
  update_contact contact_id body user
    (snd (update_contact contact_id body user db))
  = update_contact contact_id body user db.
Proof.
  unfold update_contact at 2 3.
  destruct (find (id_and_owner contact_id user) (contacts db)) as [c|] eqn:Hf;
    cbn [snd].
  - unfold update_contact.
    rewrite (update_found_row contact_id user db c (assign_body body))
      by (auto || reflexivity).
    cbn [assign_body Contacts.id]. f_equal.
    rewrite update_row_twice by reflexivity.
    apply update_row_ext. reflexivity.
  - unfold update_contact. now rewrite Hf.
Qed.

(** Of two status updates of the same contact the last one wins: the
    result and the store are those of the second update alone. *)
Theorem update_status_last_wins (contact_id : Z)
  (st1 st2 : ContactsStatusUpdate.t) (user : User.t) (db : Session) :
  update_status_contact contact_id st2 user
    (snd (update_status_contact contact_id st1 user db))
  = update_status_contact contact_id st2 user db.
Proof.
  unfold update_status_contact at 2 3.
  destruct (find (id_and_owner contact_id user) (contacts db)) as [c|] eqn:Hf;
    cbn [snd].
  - unfold update_status_contact.
    rewrite (update_found_row contact_id user db c
               (Contacts.with_done (ContactsStatusUpdate.done st1)))
      by (auto || reflexivity).
    cbn [Contacts.with_done Contacts.id]. f_equal.
    rewrite update_row_twice by reflexivity.
    apply update_row_ext. reflexivity.
  - unfold update_status_contact. now rewrite Hf.
Qed.

(** The full update and the status update of the same contact commute:
    in either order the last call returns the same record and leaves the
    same store. *)
Theorem update_and_status_commute (contact_id : Z) (body : ContactsModel.t)
  (st : ContactsStatusUpdate.t) (user : User.t) (db : Session) :
  update_status_contact contact_id st user
    (snd (update_contact contact_id body user db))
  = update_contact contact_id body user
      (snd (update_status_contact contact_id st user db)).
Proof.
  unfold update_contact at 1, update_status_contact at 2.
  destruct (find (id_and_owner contact_id user) (contacts db)) as [c|] eqn:Hf;
    cbn [snd].
  - unfold update_contact, update_status_contact.
    rewrite (update_found_row contact_id user db c (assign_body body))
      by (auto || reflexivity).
    rewrite (update_found_row contact_id user db c
               (Contacts.with_done (ContactsStatusUpdate.done st)))
      by (auto || reflexivity).
    cbn [assign_body Contacts.with_done Contacts.id Contacts.first_name
         Contacts.last_name Contacts.phone_number Contacts.born_date
         Contacts.email Contacts.description Contacts.created_at
         Contacts.done Contacts.user_id].
    f_equal.
    rewrite !update_row_twice by reflexivity.
    apply update_row_ext. reflexivity.
  - unfold update_contact, update_status_contact. now rewrite Hf.
Qed.

(** ** The key invariant *)

(** Every operation of the contacts repository keeps the keys of the
    contacts table unique; the empty table has unique keys. *)
Theorem pk_unique_invariant (db : Session) (user : User.t) :
  pk_unique db ->
  (forall body,
      pk_unique (session_after db (create_contact body user db)))
  /\ (forall cid body, pk_unique (snd (update_contact cid body user db)))
  /\ (forall cid st, pk_unique (snd (update_status_contact cid st user db)))
  /\ (forall cid, pk_unique (snd (remove_contact cid user db))).
Proof.
  intros Hpk. split; [ | split; [ | split]]; intros.
  - now apply pk_unique_create.
  - now apply pk_unique_update.
  - now apply pk_unique_update_status.
  - now apply pk_unique_remove.
Qed.

Lemma pk_unique_invariant_witness :
  pk_unique
    (session_after sample.db
       (create_contact sample.ann_body sample.alice sample.db))
  /\ pk_unique (snd (remove_contact 1 sample.alice sample.db)).
Proof.
  destruct (pk_unique_invariant sample.db sample.alice)
    as (Hcreate & _ & _ & Hremove).
  - pk_unique_by_evaluation.
  - split; [apply Hcreate | apply Hremove].
Defined.

(** ** What one user's changes show to another user *)

Lemma find_in_filter {A : Type} (p q : A -> bool) (l : list A) :
  (forall x, p x = true -> q x = true) ->
  find p (filter q l) = find p l.
Proof.
  intros Hpq. induction l as [|x l IH]; simpl; [reflexivity | ].
  destruct (q x) eqn:Hq; simpl.
  - destruct (p x); [reflexivity | exact IH].
  - destruct (p x) eqn:Hp; [ | exact IH].
    apply Hpq in Hp. congruence.
Qed.

(** The queries of a user read the user's own rows only. *)
Lemma same_rows_same_answers (v : User.t) (db db' : Session) :
  filter (owned_by v) (contacts db') = filter (owned_by v) (contacts db) ->
  same_answers v db db'.
Proof.
  intros Hrows. unfold same_answers. repeat split.
  - intros skip limit. unfold get_contacts. now rewrite Hrows.
  - intros cid. unfold get_contact.
    rewrite <- (find_in_filter (id_and_owner cid v) (owned_by v) (contacts db')),
            <- (find_in_filter (id_and_owner cid v) (owned_by v) (contacts db)).
    + now rewrite Hrows.
    + unfold id_and_owner, owned_by. intros x Hx.
      apply andb_true_iff in Hx. tauto.
    + unfold id_and_owner, owned_by. intros x Hx.
      apply andb_true_iff in Hx. tauto.
  - intros esc [[|a q]|]; simpl; try reflexivity. now rewrite Hrows.
  - intros today. unfold get_contacts_with_birthdays. now rewrite Hrows.
Qed.

Lemma filter_map_untouched {A : Type} (q : A -> bool) (g : A -> A)
  (l : list A) :
  (forall r, In r l -> q (g r) = q r /\ (q r = true -> g r = r)) ->
  filter q (map g l) = filter q l.
Proof.
  induction l as [|r l IH]; simpl; intros H; [reflexivity | ].
  destruct (H r (or_introl eq_refl)) as [Hq Hg]. rewrite Hq.
  rewrite IH by (intros x Hx; apply H; now right).
  destruct (q r); [now rewrite Hg | reflexivity].
Qed.

Lemma filter_filter_untouched {A : Type} (q p : A -> bool) (l : list A) :
  (forall r, In r l -> q r = true -> p r = true) ->
  filter q (filter p l) = filter q l.
Proof.
  induction l as [|r l IH]; simpl; intros H; [reflexivity | ].
  rewrite <- IH by (intros x Hx; apply H; now right).
  destruct (p r) eqn:Hp; simpl; [reflexivity | ].
  destruct (q r) eqn:Hq; [ | reflexivity].
  rewrite (H r (or_introl eq_refl) Hq) in Hp. discriminate Hp.
Qed.

(** The row found for [u] is the only row with its key, and it is not a
    row of [v]. *)
Lemma found_row_not_of (u v : User.t) (db : Session) (cid : Z)
  (k r : Contacts.t) :
  pk_unique db -> User.id u <> User.id v ->
  find (id_and_owner cid u) (contacts db) = Some k ->
  In r (contacts db) -> owned_by v r = true ->
  (Contacts.id r =? Contacts.id k) = false.
Proof.
  intros Hpk Huv Hf Hr Hown. apply contacts_facts.find_id_and_owner in Hf.
  destruct Hf as (Hk & _ & Hku). apply Z.eqb_neq. intros Heq.
  assert (r = k) by (eapply pk_unique_inj; eauto). subst r.
  apply Z.eqb_eq in Hown. congruence.
Qed.

Lemma update_row_invisible (u v : User.t) (db : Session) (cid : Z)
  (k : Contacts.t) (f : Contacts.t -> Contacts.t) :
  (forall r, Contacts.user_id (f r) = Contacts.user_id r) ->
  pk_unique db -> User.id u <> User.id v ->
  find (id_and_owner cid u) (contacts db) = Some k ->
  same_answers v db (update_contacts_row (Contacts.id k) f db).
Proof.
  intros Hown Hpk Huv Hf. apply same_rows_same_answers.
  unfold update_contacts_row. cbn [contacts].
  apply filter_map_untouched. intros r Hr. split.
  - destruct (Contacts.id r =? Contacts.id k); [ | reflexivity].
    unfold owned_by. now rewrite Hown.
  - intros Hv. now rewrite (found_row_not_of u v db cid k r).
Qed.

(** With unique keys, whatever update, status update or removal a user
    [u] makes, with whatever id, every query of another user [v] (page
    of the listing, lookup, search, birthdays) answers as before. *)
Theorem foreign_changes_invisible (u v : User.t) (db : Session) :
  pk_unique db ->
  User.id u <> User.id v ->
  (forall cid body, same_answers v db (snd (update_contact cid body u db)))
  /\ (forall cid st,
        same_answers v db (snd (update_status_contact cid st u db)))
  /\ (forall cid, same_answers v db (snd (remove_contact cid u db))).
Proof.
  intros Hpk Huv. split; [ | split].
  - intros cid body. unfold update_contact.
    destruct (find (id_and_owner cid u) (contacts db)) as [k|] eqn:Hf;
      cbn [snd]; [ | now apply same_rows_same_answers].
    now apply (update_row_invisible u v db cid).
  - intros cid st. unfold update_status_contact.
    destruct (find (id_and_owner cid u) (contacts db)) as [k|] eqn:Hf;
      cbn [snd]; [ | now apply same_rows_same_answers].
    now apply (update_row_invisible u v db cid).
  - intros cid. unfold remove_contact.
    destruct (find (id_and_owner cid u) (contacts db)) as [k|] eqn:Hf;
      cbn [snd]; [ | now apply same_rows_same_answers].
    apply same_rows_same_answers. unfold delete_contacts_row. cbn [contacts].
    apply filter_filter_untouched. intros r Hr Hv.
    now rewrite (found_row_not_of u v db cid k r).
Qed.

Lemma foreign_changes_invisible_witness :
  get_contacts 0 10 sample.bruno
    (snd (remove_contact 1 sample.alice sample.db))
  = get_contacts 0 10 sample.bruno sample.db.
Proof.
  destruct (foreign_changes_invisible sample.alice sample.bruno sample.db)
    as (_ & _ & Hremove).
  - pk_unique_by_evaluation.
  - simpl. lia.
  - destruct (Hremove 1) as (Hlist & _). apply Hlist.
Defined.

(** ** Search and birthdays *)

Lemma lower_ascii_idempotent (c : ascii) :
  sql.lower_ascii (sql.lower_ascii c) = sql.lower_ascii c.
Proof.
  destruct c as [[] [] [] [] [] [] [] []]; reflexivity.
Qed.

Lemma lower_idempotent (s : string) : sql.lower (sql.lower s) = sql.lower s.
Proof.
  induction s as [|c s IH]; simpl; [reflexivity | ].
  now rewrite lower_ascii_idempotent, IH.
Qed.

(** The case of the letters of the query does not matter: a query and
    its lower-case form find the same contacts. *)
Theorem search_ignores_query_case (esc : bool) (db : Session) (q : string)
  (user : User.t) :
  search_contacts esc db (Some q) user
  = search_contacts esc db (Some (sql.lower q)) user.
Proof.
  destruct q as [|a q]; [reflexivity | ].
  unfold search_contacts. cbn [sql.lower]. apply filter_ext. intros c.
  change (String (sql.lower_ascii a) (sql.lower q))
    with (sql.lower (String a q)).
  unfold matches_query, sql.ilike.
  now rewrite !sql_facts.lower_pattern_of, lower_idempotent.
Qed.

Lemma only_percent_lower (q : string) :
  only_percent q = true -> sql.lower q = q.
Proof.
  induction q as [|c q IH]; simpl; [reflexivity | ].
  intros H. apply andb_true_iff in H. destruct H as [Hc Hq].
  apply Ascii.eqb_eq in Hc. subst c. now rewrite IH.
Qed.

Lemma only_percent_app (q r : string) :
  only_percent q = true -> only_percent r = true ->
  only_percent (q ++ r)%string = true.
Proof.
  induction q as [|c q IH]; simpl; [auto | ].
  intros H Hr. apply andb_true_iff in H. destruct H as [Hc Hq].
  rewrite Hc. now apply IH.
Qed.

(** A pattern of [%] characters matches every value. *)
Lemma like_only_percent (esc : bool) (q value : string) :
  only_percent q = true ->
  sql.like esc value (String sql.percent q) = true.
Proof.
  unfold sql.like. revert value. induction q as [|c q IH]; intros value H.
  - rewrite sql_facts.tokens_percent. apply sql_facts.matches_any_alone.
  - simpl in H. apply andb_true_iff in H. destruct H as [Hc Hq].
    apply Ascii.eqb_eq in Hc. subst c.
    rewrite sql_facts.tokens_percent. apply sql_facts.matches_any.
    exists EmptyString, value. split; [reflexivity | now apply IH].
Qed.

(** The guard on the empty query does not stop a query of [%]
    characters: such a query returns every contact of the owner, whatever
    the contacts hold. *)
Theorem search_percent_returns_all (esc : bool) (db : Session) (q : string)
  (user : User.t) :
  q <> EmptyString ->
  only_percent q = true ->
  search_contacts esc db (Some q) user
  = filter (owned_by user) (contacts db).
Proof.
  intros Hne Hq. destruct q as [|a q]; [contradiction | ].
  unfold search_contacts. apply filter_all. intros c _.
  assert (Hlike : forall value,
             sql.ilike esc value (pattern_of (String a q)) = true).
  { intros value. unfold sql.ilike. rewrite sql_facts.lower_pattern_of.
    rewrite (only_percent_lower _ Hq). unfold pattern_of.
    apply like_only_percent. now apply only_percent_app. }
  unfold matches_query. now rewrite !Hlike.
Qed.

Lemma search_percent_returns_all_witness :
  search_contacts true sample.db (Some "%"%string) sample.alice
  = [sample.bob].
Proof.
  rewrite (search_percent_returns_all true sample.db "%" sample.alice).
  - reflexivity.
  - discriminate.
  - reflexivity.
Defined.

Lemma birthdays_within_month_witness :
  get_contacts_with_birthdays (date.mk 2024 1 10) sample.db sample.bruno
  = [sample.ann].
Proof.
  rewrite (birthdays_within_month (date.mk 2024 1 10) sample.db sample.bruno).
  - reflexivity.
  - unfold date.valid. vm_compute. intuition discriminate.
  - vm_compute. intros H. discriminate H.
Defined.

(** What the filter of [get_contacts_with_birthdays] lets through. *)
Lemma birthdays_window (today : date.t) (db : Session) (user : User.t)
  (c : Contacts.t) :
  In c (get_contacts_with_birthdays today db user) ->
  date.month (Contacts.born_date c) = date.month today
  /\ date.day today <= date.day (Contacts.born_date c)
     <= date.day (date.add_days today 7).
Proof.
  unfold get_contacts_with_birthdays. cbn zeta. intros H.
  apply filter_In in H. destruct H as [_ H].
  apply andb_true_iff in H. destruct H as [H Hle].
  apply andb_true_iff in H. destruct H as [Hm Hge].
  apply Z.eqb_eq in Hm. apply Z.leb_le in Hle.
  rewrite Z.geb_leb in Hge. apply Z.leb_le in Hge. auto.
Qed.

(** The birthday list holds no contact it should not: the birthday of a
    returned contact falls on today or on one of the seven days after
    it. *)
Theorem birthdays_sound (today : date.t) (db : Session) (user : User.t)
  (c : Contacts.t) :
  date.valid today ->
  In c (get_contacts_with_birthdays today db user) ->
  exists k : nat,
    (k <= 7)%nat /\ birthday_on c (date.add_days today k).
Proof.
  intros Hv Hin. apply birthdays_window in Hin.
  destruct Hin as (Hm & Hlo & Hhi).
  rewrite date_facts.next_week_day in Hhi by exact Hv.
  pose proof (date_facts.days_in_month_bounds (date.year today)
                (date.month today)) as Hdim.
  destruct (Z.leb_spec (date.day today + 7)
              (date.days_in_month (date.year today) (date.month today)));
    [ | lia].
  exists (Z.to_nat (date.day (Contacts.born_date c) - date.day today)).
  split; [lia | ].
  rewrite date_facts.add_days_within by lia.
  unfold birthday_on. cbn [date.month date.day]. split; [exact Hm | lia].
Qed.

Lemma birthdays_sound_witness :
  exists k : nat,
    (k <= 7)%nat
    /\ birthday_on sample.ann (date.add_days (date.mk 2024 1 10) k).
Proof.
  apply (birthdays_sound (date.mk 2024 1 10) sample.db sample.bruno
           sample.ann).
  - unfold date.valid. vm_compute. intuition discriminate.
  - simpl. left. reflexivity.
Defined.

(** * Further properties of the users repository *)

Lemma find_app_hit {A : Type} (p : A -> bool) (l l' : list A) (x : A) :
  find p l = Some x -> find p (l ++ l') = Some x.
Proof.
  induction l as [|y l IH]; simpl; [intros H; discriminate H | ].
  destruct (p y); [auto | exact IH].
Qed.

(** A user created under an email nobody has is the user the lookup by
    that email then returns, whatever the avatar collaborator did;
    lookups by any other email answer as before. *)
Theorem create_user_then_lookup (get_image : string -> result string)
  (now : datetime) (body : UserModel.t) (db : Session) :
  get_user_by_email (UserModel.email body) db = None ->
  exists (u : User.t) (db' : Session),
    fst (create_user get_image now body db) = Ok (u, db')
    /\ get_user_by_email (UserModel.email body) db' = Some u
    /\ (forall email,
          email <> UserModel.email body ->
          get_user_by_email email db' = get_user_by_email email db).
Proof.
  intros Hfree. unfold create_user, insert_users_row.
  destruct (get_image (UserModel.email body)) as [url | e];
    cbn [new_user User.email fst];
    rewrite email_taken_iff_found, Hfree;
    eexists; eexists; (split; [reflexivity | ]);
    unfold get_user_by_email in *; cbn [users]; split.
  all: try (rewrite (find_app_miss _ _ _ Hfree);
            cbn [new_user User.email]; now rewrite String.eqb_refl).
  all: intros email Hne;
    destruct (find (fun u => String.eqb (User.email u) email) (users db))
      as [x|] eqn:Hf;
    [ now apply find_app_hit
    | rewrite (find_app_miss _ _ _ Hf); cbn [new_user User.email];
      apply not_eq_sym, String.eqb_neq in Hne; now rewrite Hne ].
Qed.

Lemma create_user_then_lookup_witness :
  exists (u : User.t) (db' : Session),
    fst (create_user sample.gravatar_down 1700000200 sample.carla_body
           sample.db)
    = Ok (u, db')
    /\ get_user_by_email "carla@example.com" db' = Some u.
Proof.
  destruct (create_user_then_lookup sample.gravatar_down 1700000200
              sample.carla_body sample.db) as (u & db' & Hok & Hfound & _).
  - reflexivity.
  - exists u, db'. split; [exact Hok | exact Hfound].
Defined.

Lemma lookup_after_users_update (email : string) (db : Session) (pk : Z)
  (f : User.t -> User.t) :
  (forall r, User.email (f r) = User.email r) ->
  get_user_by_email email (update_users_row pk f db)
  = option_map (fun r => if User.id r =? pk then f r else r)
      (get_user_by_email email db).
Proof.
  intros Hemail. unfold get_user_by_email, update_users_row. cbn [users].
  apply find_map_stable. intros r.
  destruct (User.id r =? pk); [now rewrite Hemail | reflexivity].
Qed.

Lemma users_update_twice (pk : Z) (f g : User.t -> User.t) (db : Session) :
  (forall r, User.id (f r) = User.id r) ->
  update_users_row pk g (update_users_row pk f db)
  = update_users_row pk (fun r => g (f r)) db.
Proof.
  intros Hid. unfold update_users_row. cbn [contacts users]. f_equal.
  rewrite map_map. apply map_ext. intros r.
  destruct (User.id r =? pk) eqn:Hr; [ | now rewrite Hr].
  now rewrite Hid, Hr.
Qed.

(** [update_token] on a stored user: the lookup by the user's email then
    returns the user with the given token, or with none after a logout,
    and with every other field as before; the contacts are untouched;
    and of two calls the last wins. *)
Theorem update_token_round_trip (email : string) (user : User.t)
  (token : option string) (db : Session) :
  get_user_by_email email db = Some user ->
  get_user_by_email email (update_token user token db)
  = Some (User.with_refresh_token token user)
  /\ contacts (update_token user token db) = contacts db
  /\ (forall earlier,
        update_token user token (update_token user earlier db)
        = update_token user token db).
Proof.
  intros Hget. unfold update_token. split; [ | split].
  - rewrite lookup_after_users_update, Hget by reflexivity.
    simpl. now rewrite Z.eqb_refl.
  - reflexivity.
  - intros earlier. rewrite users_update_twice by reflexivity.
    unfold update_users_row. f_equal.
Qed.

Lemma update_token_round_trip_witness :
  get_user_by_email "alice@example.com"
    (update_token sample.alice (Some "token-1"%string) sample.db)
  = Some (User.with_refresh_token (Some "token-1"%string) sample.alice).
Proof.
  apply (update_token_round_trip "alice@example.com" sample.alice
           (Some "token-1"%string) sample.db).
  reflexivity.
Defined.

(** [update_avatar]: when a user with the email exists, the first such
    user is returned with the new avatar and every other field as
    before, and is what the lookup then returns; the contacts are
    untouched.  When no such user exists, the assignment to the absent
    lookup result raises an [AttributeError] and nothing is stored. *)
Theorem update_avatar_outcome (email url : string) (db : Session) :
  match get_user_by_email email db with
  | Some u =>
      let u' := User.with_avatar (Some url) u in
      let db' := update_users_row (User.id u) (User.with_avatar (Some url))
                   db in
      update_avatar email url db = Ok (u', db')
      /\ get_user_by_email email db' = Some u'
      /\ User.avatar u' = Some url
      /\ User.confirmed u' = User.confirmed u
      /\ User.refresh_token u' = User.refresh_token u
      /\ User.password u' = User.password u
      /\ contacts db' = contacts db
  | None =>
      exists msg : string,
        update_avatar email url db = Raise (AttributeError msg)
  end.
Proof.
  unfold update_avatar.
  destruct (get_user_by_email email db) as [u|] eqn:Hget.
  - cbn zeta. split; [reflexivity | ]. split; [ | repeat split].
    rewrite lookup_after_users_update, Hget by reflexivity.
    simpl. now rewrite Z.eqb_refl.
  - eexists. reflexivity.
Qed.

(** Confirming an email twice is confirming it once: after a successful
    confirmation, a second one succeeds and leaves the store as it
    is. *)
Theorem confirmed_email_idempotent (email : string) (db db' : Session) :
  confirmed_email email db = Ok db' ->
  confirmed_email email db' = Ok db'.
Proof.
  unfold confirmed_email.
  destruct (get_user_by_email email db) as [u|] eqn:Hget;
    [ | intros H; discriminate H].
  intros H. injection H as <-.
  rewrite lookup_after_users_update, Hget by reflexivity.
  cbn [option_map]. rewrite Z.eqb_refl. cbn [User.with_confirmed User.id].
  f_equal. rewrite users_update_twice by reflexivity.
  unfold update_users_row. f_equal.
Qed.

Lemma confirmed_email_idempotent_witness :
  exists db' : Session,
    confirmed_email "alice@example.com" sample.db = Ok db'
    /\ confirmed_email "alice@example.com" db' = Ok db'.
Proof.
  eexists. split; [reflexivity | ].
  apply (confirmed_email_idempotent "alice@example.com" sample.db).
  reflexivity.
Defined.

Lemma confirmed_ids_update (i pk : Z) (f : User.t -> User.t) (db : Session) :
  (forall r, User.id (f r) = User.id r) ->
  (forall r, User.confirmed r = true -> User.confirmed (f r) = true) ->
  In i (confirmed_ids db) ->
  In i (confirmed_ids (update_users_row pk f db)).
Proof.
  intros Hid Hkeep. unfold confirmed_ids, update_users_row. cbn [users].
  intros Hin. apply in_map_iff in Hin. destruct Hin as (r & <- & Hr).
  apply filter_In in Hr. destruct Hr as [Hr Hc].
  apply in_map_iff.
  exists (if User.id r =? pk then f r else r). split.
  - destruct (User.id r =? pk); [apply Hid | reflexivity].
  - apply filter_In. split.
    + apply in_map_iff. exists r. auto.
    + destruct (User.id r =? pk); [now apply Hkeep | exact Hc].
Qed.

(** A confirmed email stays confirmed: no operation of the users
    repository takes a key out of the confirmed ones. *)
Theorem confirmed_is_monotone (i : Z) (db : Session) :
  In i (confirmed_ids db) ->
  (forall get_image now body,
      In i (confirmed_ids
              (session_after db (fst (create_user get_image now body db)))))
  /\ (forall user token, In i (confirmed_ids (update_token user token db)))
  /\ (forall email db',
        confirmed_email email db = Ok db' -> In i (confirmed_ids db'))
  /\ (forall email url u db',
        update_avatar email url db = Ok (u, db') ->
        In i (confirmed_ids db')).
Proof.
  intros Hin. split; [ | split; [ | split]].
  - intros get_image now body. unfold create_user, insert_users_row.
    destruct (get_image (UserModel.email body)); cbn [fst];
      destruct (existsb _ (users db)); cbn [session_after];
      try exact Hin;
      unfold confirmed_ids in *; cbn [users];
      rewrite filter_app, map_app; apply in_or_app; now left.
  - intros user token. unfold update_token.
    now apply confirmed_ids_update.
  - intros email db'. unfold confirmed_email.
    destruct (get_user_by_email email db); intros H; [ | discriminate H].
    injection H as <-. now apply confirmed_ids_update.
  - intros email url u db'. unfold update_avatar.
    destruct (get_user_by_email email db); intros H; [ | discriminate H].
    injection H as _ <-. now apply confirmed_ids_update.
Qed.

Lemma confirmed_is_monotone_witness :
  let db := mkSession [] [User.with_confirmed true sample.alice] in
  In 1 (confirmed_ids (update_token sample.alice None db)).
Proof.
  cbn zeta.
  destruct (confirmed_is_monotone 1
              (mkSession [] [User.with_confirmed true sample.alice]))
    as (_ & Htoken & _).
  - simpl. left. reflexivity.
  - apply Htoken.
Defined.

(** * Properties of the routes *)

Lemma unused_key_misses (cid : Z) (user : User.t) (db : Session) :
  unused_key cid db ->
  find (id_and_owner cid user) (contacts db) = None.
Proof.
  intros Hfree. destruct (find _ _) as [k|] eqn:Hf; [exfalso | reflexivity].
  apply contacts_facts.find_id_and_owner in Hf.
  destruct Hf as (Hk & Hid & _). apply Hfree. rewrite <- Hid.
  now apply in_map.
Qed.

(** The routes do not tell a contact of another user from a contact
    that does not exist: with unique keys, reading, updating, patching
    and deleting by [B] under the id of a contact of [A] answer exactly
    as under an id no contact has, with the 404 error, and leave the
    store as it was. *)
Theorem routes_hide_foreign_contacts (A B : User.t) (c : Contacts.t)
  (db : Session) (unused : Z) (body : ContactsModel.t)
  (st : ContactsStatusUpdate.t) :
  pk_unique db ->
  In c (contacts db) ->
  Contacts.user_id c = User.id A ->
  User.id A <> User.id B ->
  unused_key unused db ->
  (routes_contacts.read_contact (Contacts.id c) db B
   = routes_contacts.read_contact unused db B
   /\ raises_not_found (routes_contacts.read_contact (Contacts.id c) db B))
  /\ (routes_contacts.update_contact body (Contacts.id c) db B
      = routes_contacts.update_contact body unused db B
      /\ raises_not_found
           (fst (routes_contacts.update_contact body (Contacts.id c) db B))
      /\ snd (routes_contacts.update_contact body (Contacts.id c) db B) = db)
  /\ (routes_contacts.update_status_note st (Contacts.id c) db B
      = routes_contacts.update_status_note st unused db B
      /\ raises_not_found
           (fst (routes_contacts.update_status_note st (Contacts.id c) db B))
      /\ snd (routes_contacts.update_status_note st (Contacts.id c) db B)
         = db)
  /\ (routes_contacts.remove_contact (Contacts.id c) db B
      = routes_contacts.remove_contact unused db B
      /\ raises_not_found
           (fst (routes_contacts.remove_contact (Contacts.id c) db B))
      /\ snd (routes_contacts.remove_contact (Contacts.id c) db B) = db).
Proof.
  intros Hpk Hin HA HAB Hfree.
  assert (Hown : Contacts.user_id c <> User.id B) by congruence.
  pose proof (contacts_facts.foreign_lookup_misses B c db Hpk Hin Hown)
    as Hforeign.
  pose proof (unused_key_misses unused B db Hfree) as Hunused.
  unfold routes_contacts.read_contact, routes_contacts.update_contact,
    routes_contacts.update_status_note, routes_contacts.remove_contact,
    get_contact, update_contact, update_status_contact, remove_contact.
  rewrite Hforeign, Hunused. cbn [fst snd routes_contacts.or_404].
  repeat split; eexists; split; reflexivity.
Qed.

Lemma routes_hide_foreign_contacts_witness :
  routes_contacts.read_contact 1 sample.db sample.bruno
  = routes_contacts.read_contact 7 sample.db sample.bruno.
Proof.
  destruct (routes_hide_foreign_contacts sample.alice sample.bruno
              sample.bob sample.db 7 sample.ann_body sample.mark_done)
    as ((Hread & _) & _).
  - pk_unique_by_evaluation.
  - simpl. left. reflexivity.
  - reflexivity.
  - simpl. lia.
  - unfold unused_key. simpl. intuition lia.
  - exact Hread.
Defined.

(** Without query parameters the listing route returns the first 100
    contacts of the user: never more than 100, and all of them when the
    user has no more than 100. *)
Theorem read_contacts_default_page (db : Session) (user : User.t) :
  (List.length (routes_contacts.read_contacts None None db user) <= 100)%nat
  /\ ((List.length (filter (owned_by user) (contacts db)) <= 100)%nat ->
      routes_contacts.read_contacts None None db user
      = filter (owned_by user) (contacts db))
  /\ routes_contacts.read_contacts None None db user
     = firstn 100 (filter (owned_by user) (contacts db)).
Proof.
  unfold routes_contacts.read_contacts, get_contacts. simpl skipn.
  split; [apply firstn_le_length | ].
  split; [intros H; now apply firstn_all2 | reflexivity].
Qed.

(** * Properties of the email service *)

Import services_email.

(** Sorts out the equations between outcomes of the steps. *)
Ltac sort_outcomes :=
  repeat match goal with
  | H : exists _, _ |- _ => destruct H
  | H : _ /\ _ |- _ => destruct H
  | H : _ \/ _ |- _ => destruct H
  | H : Returns _ = Raises _ |- _ => discriminate H
  | H : Raises _ = Returns _ |- _ => discriminate H
  | H : Raises (ConnectionErrors _) = Raises (OtherError _) |- _ =>
      discriminate H
  | H : Raises (OtherError _) = Raises (ConnectionErrors _) |- _ =>
      discriminate H
  | H : Returns _ = Returns _ |- _ => inversion H; subst; clear H
  | H : Raises (OtherError _) = Raises (OtherError _) |- _ =>
      inversion H; subst; clear H
  | H : ?x = _, H' : ?x = _ |- _ => rewrite H in H'
  end.

(** [send_email] lets no [ConnectionErrors] out, whichever step raises
    it: it is printed and the call returns.  It is the only error so
    treated: any other exception leaves [send_email] as it was raised,
    be it raised while the token is made, while the message is built and
    validated, or while it is sent, each step being taken only when the
    steps before it returned; and when the token cannot be made, the
    result does not depend on the two later steps. *)
Theorem send_email_swallows_connection_errors_only
  (create_email_token : list (string * string) -> outcome string)
  (message_schema :
     string -> list string -> list (string * string) -> string ->
     outcome MessageSchema)
  (send_message : MessageSchema -> string -> outcome unit)
  (email username host : string) :
  let sent :=
    send_email create_email_token message_schema send_message email
      username host in
  let token_made := create_email_token [("sub"%string, email)] in
  let message_built token :=
    message_schema "Confirm your email "%string [email]
      [("host"%string, host); ("username"%string, username);
       ("token"%string, token)] "html"%string in
  (forall msg, sent <> Raises (ConnectionErrors msg))
  /\ (forall e,
        sent = Raises (OtherError e)
        <-> token_made = Raises (OtherError e)
            \/ (exists token,
                  token_made = Returns token
                  /\ message_built token = Raises (OtherError e))
            \/ (exists token message,
                  token_made = Returns token
                  /\ message_built token = Returns message
                  /\ send_message message "email_template.html"%string
                     = Raises (OtherError e)))
  /\ (forall r message_schema' send_message',
        token_made = Raises r ->
        send_email create_email_token message_schema' send_message' email
          username host
        = sent).
Proof.
  cbn zeta. unfold send_email.
  destruct (create_email_token [("sub"%string, email)])
    as [token | [msg | e1]] eqn:Htoken;
    cbn [swallow_connection_errors].
  - destruct (message_schema _ _ _ _) as [message | [msg | e2]] eqn:Hbuilt;
      cbn [swallow_connection_errors].
    + destruct (send_message message _) as [[] | [msg | e3]] eqn:Hsent;
        cbn [swallow_connection_errors].
      * split; [intros msg H; discriminate H | ]. split.
        -- intros e. split; intros H; sort_outcomes.
        -- intros r ms sm H. discriminate H.
      * split; [intros m H; discriminate H | ]. split.
        -- intros e. split; intros H; sort_outcomes.
        -- intros r ms sm H. discriminate H.
      * split; [intros m H; discriminate H | ]. split.
        -- intros e. split; intros H; sort_outcomes; [ | reflexivity].
           right. right. exists token, message. auto.
        -- intros r ms sm H. discriminate H.
    + split; [intros m H; discriminate H | ]. split.
      * intros e. split; intros H; sort_outcomes.
      * intros r ms sm H. discriminate H.
    + split; [intros m H; discriminate H | ]. split.
      * intros e. split; intros H; sort_outcomes; [ | reflexivity].
        right. left. exists token. auto.
      * intros r ms sm H. discriminate H.
  - split; [intros m H; discriminate H | ]. split.
    + intros e. split; intros H; sort_outcomes.
    + reflexivity.
  - split; [intros m H; discriminate H | ]. split.
    + intros e. split; intros H; sort_outcomes; [ | reflexivity].
      now left.
    + reflexivity.
Qed.
